(** * Incident dashboard (src/App.tsx): store, view pipeline and handlers

    A shallow embedding of the logic of the [App] component: the
    [Incident] record, the seed data, the derived view
    ([filtered] then [sorted]), and the handlers [handleAddIncident],
    [toggleAcknowledge] and the "View Details" click.

    The file has three parts: the program ([JS], [Date], [JSArray],
    [Incident], [Draft], [App]), the vocabulary of the properties and the
    sample data ([Spec], [Samples]), and the properties.

    Conventions.
    - A JavaScript string is a [string]; a character is a code unit in the
      range 0..255 (Latin-1), which is where [trim] and [toLowerCase] are
      defined below exactly as ECMAScript defines them.
    - A JavaScript number holding an integer is a [Z]; a number that may be
      [NaN] is an [option Z] with [None] for [NaN].
    - The TypeScript unions ["Low" | "Medium" | "High"] and
      ["newest" | "oldest"] are erased at run time, and the cast on line 78
      is unchecked, so severities, the filter and the sort order are strings,
      as they are when the code runs.
    - [Date.now()] and [new Date()] read the host clock: the readings are
      arguments of the handler. [new Date(s).getTime()] depends on the host
      outside the ECMAScript date-time format: the view takes the parse
      function as an argument, and [iso_parse] is the instance used for
      concrete runs.
    - A handler runs on the state of the last render and its setters give
      the state of the next one: a handler is a function from state to
      state. *)

From Stdlib Require Import String Ascii List ZArith Bool Lia.
From Stdlib Require Import Permutation Sorted.
Import ListNotations.

Open Scope string_scope.
Open Scope list_scope.
Open Scope Z_scope.

(** ** String built-ins *)

Module JS.

(** Code units that [String.prototype.trim] strips (WhiteSpace and
    LineTerminator of ECMAScript) in the range 0..255: TAB, LF, VT, FF, CR,
    SP and NBSP. *)
Definition isWhiteSpace (c : ascii) : bool :=
  let n := N_of_ascii c in
  (((9 <=? n) && (n <=? 13)) || (n =? 32) || (n =? 160))%N.

Fixpoint trimStart (s : string) : string :=
  match s with
  | EmptyString => EmptyString
  | String c s' => if isWhiteSpace c then trimStart s' else s
  end.

Fixpoint trimEnd (s : string) : string :=
  match s with
  | EmptyString => EmptyString
  | String c s' =>
      match trimEnd s' with
      | EmptyString => if isWhiteSpace c then EmptyString else String c EmptyString
      | r => String c r
      end
  end.

Definition trim (s : string) : string := trimEnd (trimStart s).

(** [ToBoolean] on a string: only the empty string is falsy. *)
Definition truthy (s : string) : bool :=
  match s with EmptyString => false | String _ _ => true end.

(** [String.prototype.toLowerCase] on the code units 0..255: A-Z and the
    Latin-1 capitals U+00C0..U+00DE (the multiplication sign U+00D7 apart)
    move up by 32; every other code unit is kept. *)
Definition lowerChar (c : ascii) : ascii :=
  let n := N_of_ascii c in
  if (((65 <=? n) && (n <=? 90))
      || ((192 <=? n) && (n <=? 222) && negb (n =? 215)))%N
  then ascii_of_N (n + 32) else c.

Fixpoint toLowerCase (s : string) : string :=
  match s with
  | EmptyString => EmptyString
  | String c s' => String (lowerChar c) (toLowerCase s')
  end.

(** [s.includes(pat)]: [pat] occurs in [s] at some position. *)
Fixpoint includes (s pat : string) : bool :=
  prefix pat s
  || match s with
     | EmptyString => false
     | String _ s' => includes s' pat
     end.

(** [s.split(sep)] for a separator of one code unit. The result is never
    empty: [("").split(",")] is [[""]]. *)
Fixpoint split (sep : ascii) (s : string) : list string :=
  match s with
  | EmptyString => [EmptyString]
  | String c s' =>
      if Ascii.eqb c sep then EmptyString :: split sep s'
      else match split sep s' with
           | piece :: rest => String c piece :: rest
           | [] => [String c EmptyString]
           end
  end.

(** [pieces.join(sep)], the inverse of [split]. *)
Fixpoint join (sep : ascii) (pieces : list string) : string :=
  match pieces with
  | [] => EmptyString
  | [p] => p
  | p :: rest => (p ++ String sep (join sep rest))%string
  end.

(** [arr.some(f)]. *)
Definition some {A : Type} (f : A -> bool) (arr : list A) : bool := existsb f arr.

(** A number that may be [NaN]. *)
Definition number := option Z.

Definition sub (x y : number) : number :=
  match x, y with
  | Some a, Some b => Some (a - b)
  | _, _ => None
  end.

End JS.

(** ** Dates *)

Module Date.

Definition msPerDay : Z := 86400000.

(** Days since 1970-01-01 of a proleptic Gregorian date. *)
Definition days_from_civil (y m d : Z) : Z :=
  let y' := if m <=? 2 then y - 1 else y in
  let era := y' / 400 in
  let yoe := y' - era * 400 in
  let mp := if m <=? 2 then m + 9 else m - 3 in
  let doy := (153 * mp + 2) / 5 + d - 1 in
  let doe := yoe * 365 + yoe / 4 - yoe / 100 + doy in
  era * 146097 + doe - 719468.

(** Year, month and day of a day number. *)
Definition civil_from_days (days : Z) : Z * Z * Z :=
  let z := days + 719468 in
  let era := z / 146097 in
  let doe := z - era * 146097 in
  let yoe := (doe - doe / 1460 + doe / 36524 - doe / 146096) / 365 in
  let doy := doe - (365 * yoe + yoe / 4 - yoe / 100) in
  let mp := (5 * doy + 2) / 153 in
  let d := doy - (153 * mp + 2) / 5 + 1 in
  let m := if mp <? 10 then mp + 3 else mp - 9 in
  let y := yoe + era * 400 in
  (if m <=? 2 then y + 1 else y, m, d).

Definition digit (d : Z) : ascii := ascii_of_N (48 + Z.to_N d).

(** The [w] low decimal digits of [z], most significant first. *)
Fixpoint digits (w : nat) (z : Z) (acc : string) : string :=
  match w with
  | O => acc
  | S w' => digits w' (z / 10) (String (digit (z mod 10)) acc)
  end.

Definition pad (w : nat) (z : Z) : string := digits w z EmptyString.

(** [Date.prototype.toISOString] of a time value (milliseconds since the
    epoch): [YYYY-MM-DDTHH:mm:ss.sssZ], with the expanded year
    [+YYYYYY] or [-YYYYYY] outside 0..9999. *)
Definition toISOString (t : Z) : string :=
  let '(y, m, d) := civil_from_days (t / msPerDay) in
  let r := t mod msPerDay in
  let year :=
    if (0 <=? y) && (y <=? 9999) then pad 4 y
    else if y <? 0 then ("-" ++ pad 6 (- y))%string
         else ("+" ++ pad 6 y)%string in
  (year ++ "-" ++ pad 2 m ++ "-" ++ pad 2 d ++ "T"
        ++ pad 2 (r / 3600000) ++ ":" ++ pad 2 (r / 60000 mod 60) ++ ":"
        ++ pad 2 (r / 1000 mod 60) ++ "." ++ pad 3 (r mod 1000) ++ "Z")%string.

Definition digit_value (c : ascii) : option Z :=
  let n := N_of_ascii c in
  if ((48 <=? n) && (n <=? 57))%N then Some (Z.of_N n - 48) else None.

(** Reads exactly [w] decimal digits from the front of [s]. *)
Fixpoint take_num (w : nat) (acc : Z) (s : string) : option (Z * string) :=
  match w with
  | O => Some (acc, s)
  | S w' =>
      match s with
      | EmptyString => None
      | String c s' =>
          match digit_value c with
          | Some v => take_num w' (10 * acc + v) s'
          | None => None
          end
      end
  end.

Definition expect (c : ascii) (s : string) : option string :=
  match s with
  | String c' s' => if Ascii.eqb c c' then Some s' else None
  | EmptyString => None
  end.

Definition is_leap (y : Z) : bool :=
  ((y mod 4 =? 0) && negb (y mod 100 =? 0)) || (y mod 400 =? 0).

Definition days_in_month (y m : Z) : Z :=
  if m =? 2 then (if is_leap y then 29 else 28)
  else if (m =? 4) || (m =? 6) || (m =? 9) || (m =? 11) then 30 else 31.

Definition bind {A B : Type} (o : option A) (k : A -> option B) : option B :=
  match o with Some a => k a | None => None end.

Notation "' p <- o ;; k" := (bind o (fun p => k))
  (at level 61, p pattern, o at next level, right associativity).
Notation "x <- o ;; k" := (bind o (fun x => k))
  (at level 61, o at next level, right associativity).

(** Time of day [HH:mm:ss] or [HH:mm:ss.sss] followed by [Z], in
    milliseconds. *)
Definition parse_time (s : string) : option Z :=
  '(h, s) <- take_num 2 0 s ;;
  s <- expect ":" s ;;
  '(mi, s) <- take_num 2 0 s ;;
  s <- expect ":" s ;;
  '(sec, s) <- take_num 2 0 s ;;
  if (h <=? 23) && (mi <=? 59) && (sec <=? 59) then
    let base := h * 3600000 + mi * 60000 + sec * 1000 in
    match s with
    | "Z" => Some base
    | String "." s' =>
        '(ms, s'') <- take_num 3 0 s' ;;
        match s'' with
        | "Z" => Some (base + ms)
        | _ => None
        end
    | _ => None
    end
  else None.

(** A host parse function for the part of the ECMAScript date-time format
    this program produces or is run on: the date alone [YYYY-MM-DD] (UTC),
    and [YYYY-MM-DDTHH:mm:ssZ] with or without milliseconds. Every other
    string is [NaN] here. *)
Definition iso_parse (s : string) : JS.number :=
  '(y, s) <- take_num 4 0 s ;;
  s <- expect "-" s ;;
  '(m, s) <- take_num 2 0 s ;;
  s <- expect "-" s ;;
  '(d, s) <- take_num 2 0 s ;;
  if (1 <=? m) && (m <=? 12) && (1 <=? d) && (d <=? days_in_month y m) then
    let day := days_from_civil y m d * msPerDay in
    match s with
    | EmptyString => Some day
    | String "T" s' => t <- parse_time s' ;; Some (day + t)
    | _ => None
    end
  else None.

End Date.

(** ** [Array.prototype.sort] *)

Module JSArray.

Section Sort.
Context {A : Type}.
Variable comparefn : A -> A -> JS.number.

(** What [sort] makes of a call of the comparator: a [NaN] result counts
    as [+0]. *)
Definition sortCompare (x y : A) : Z :=
  match comparefn x y with
  | Some v => v
  | None => 0
  end.

(** [x] stood before every element of [l]: it moves behind exactly the
    elements it is strictly greater than, so equal elements keep their
    order. *)
Fixpoint insert (x : A) (l : list A) : list A :=
  match l with
  | [] => [x]
  | y :: l' => if sortCompare x y >? 0 then y :: insert x l' else x :: l
  end.

(** [arr.sort(comparefn)]. ECMAScript (since 2019) asks for a stable sort
    and leaves the algorithm open; for a comparator that is consistent on the array
    the result does not depend on it ([sort_unique] below). *)
Fixpoint sort (arr : list A) : list A :=
  match arr with
  | [] => []
  | x :: arr' => insert x (sort arr')
  end.
End Sort.

End JSArray.

(** ** The component *)

(** [interface Incident]; the optional [tags] is [None] when absent. *)
Record Incident := mkIncident {
  id : Z;
  title : string;
  description : string;
  severity : string;
  reported_at : string;
  acknowledged : bool;
  tags : option (list string)
}.

Definition initialIncidents : list Incident :=
  [ {| id := 1;
       title := "Biased Recommendation Algorithm";
       description := "Algorithm consistently favored certain demographics...";
       severity := "Medium";
       reported_at := "2025-03-15T10:00:00Z";
       acknowledged := false;
       tags := Some ["Bias"; "Algorithm"] |};
    {| id := 2;
       title := "LLM Hallucination in Critical Info";
       description := "LLM provided incorrect safety procedure information...";
       severity := "High";
       reported_at := "2025-04-01T14:30:00Z";
       acknowledged := false;
       tags := Some ["Hallucination"; "LLM"] |};
    {| id := 3;
       title := "Minor Data Leak via Chatbot";
       description := "Chatbot inadvertently exposed non-sensitive user metadata...";
       severity := "Low";
       reported_at := "2025-03-20T09:15:00Z";
       acknowledged := false;
       tags := Some ["Privacy"; "Chatbot"] |} ].

(** The form's draft, the [newIncident] state. *)
Module Draft.

Record t := mk {
  title : string;
  description : string;
  severity : string;
  tags : string
}.

Definition empty : t :=
  {| title := ""; description := ""; severity := "Low"; tags := "" |}.

End Draft.

Module App.

(** The six [useState] cells of [App]. *)
Record State := mkState {
  incidents : list Incident;
  filter : string;
  sortOrder : string;
  expanded : option Z;
  newIncident : Draft.t;
  search : string
}.

Definition initialState : State :=
  {| incidents := initialIncidents;
     filter := "All";
     sortOrder := "newest";
     expanded := None;
     newIncident := Draft.empty;
     search := "" |}.

Definition setIncidents (v : list Incident) (st : State) : State :=
  mkState v (filter st) (sortOrder st) (expanded st) (newIncident st) (search st).

Definition setFilter (v : string) (st : State) : State :=
  mkState (incidents st) v (sortOrder st) (expanded st) (newIncident st) (search st).

Definition setSortOrder (v : string) (st : State) : State :=
  mkState (incidents st) (filter st) v (expanded st) (newIncident st) (search st).

Definition setExpanded (v : option Z) (st : State) : State :=
  mkState (incidents st) (filter st) (sortOrder st) v (newIncident st) (search st).

Definition setNewIncident (v : Draft.t) (st : State) : State :=
  mkState (incidents st) (filter st) (sortOrder st) (expanded st) v (search st).

Definition setSearch (v : string) (st : State) : State :=
  mkState (incidents st) (filter st) (sortOrder st) (expanded st) (newIncident st) v.

(** *** The derived view (lines 58-70) *)

(** Line 59. *)
Definition severityKeep (flt : string) (i : Incident) : bool :=
  if (flt =? "All")%string then true else (severity i =? flt)%string.

(** Line 63: [tag => tag.toLowerCase().includes(search.toLowerCase())]. *)
Definition tagMatches (srch tag : string) : bool :=
  JS.includes (JS.toLowerCase tag) (JS.toLowerCase srch).

(** Lines 60-64. [i.tags?.some(...)] is [undefined] when [tags] is absent,
    which [filter] reads as false. *)
Definition searchKeep (srch : string) (i : Incident) : bool :=
  JS.includes (JS.toLowerCase (title i)) (JS.toLowerCase srch)
  || JS.includes (JS.toLowerCase (description i)) (JS.toLowerCase srch)
  || match tags i with
     | Some ts => JS.some (tagMatches srch) ts
     | None => false
     end.

Definition severityFilter (flt : string) (l : list Incident) : list Incident :=
  List.filter (severityKeep flt) l.

Definition searchFilter (srch : string) (l : list Incident) : list Incident :=
  List.filter (searchKeep srch) l.

Definition filtered (st : State) : list Incident :=
  searchFilter (search st) (severityFilter (filter st) (incidents st)).

Section View.
(** [s => new Date(s).getTime()] of the host. *)
Variable Date_parse : string -> JS.number.

Definition getTime (i : Incident) : JS.number := Date_parse (reported_at i).

(** The comparator of lines 66-70. The two times are integers of
    magnitude at most 8.64e15, so the sign of their floating-point
    difference is the sign of the exact difference. *)
Definition compareReported (order : string) (a b : Incident) : JS.number :=
  if (order =? "newest")%string then JS.sub (getTime b) (getTime a)
  else JS.sub (getTime a) (getTime b).

(** [filtered] is a fresh array, so sorting it in place leaves
    [incidents] alone. *)
Definition sorted (st : State) : list Incident :=
  JSArray.sort (compareReported (sortOrder st)) (filtered st).
End View.

(** *** The handlers *)

(** Line 81. *)
Definition parseTags (raw : string) : list string :=
  List.filter JS.truthy (map JS.trim (JS.split "," raw)).

(** Line 73, the condition of the early return. *)
Definition refused (d : Draft.t) : bool :=
  negb (JS.truthy (JS.trim (Draft.title d)))
  || negb (JS.truthy (JS.trim (Draft.description d))).

(** Lines 72-85. [now] is what [Date.now()] returns and [today] the time
    value of [new Date()]; neither is read when the draft is refused. *)
Definition handleAddIncident (now today : Z) (st : State) : State :=
  let d := newIncident st in
  if refused d then st
  else
    let newEntry :=
      {| id := now;
         title := Draft.title d;
         description := Draft.description d;
         severity := Draft.severity d;
         reported_at := Date.toISOString today;
         acknowledged := false;
         tags := Some (parseTags (Draft.tags d)) |} in
    setNewIncident Draft.empty (setIncidents (newEntry :: incidents st) st).

(** Lines 89-93, the function mapped over the store. *)
Definition flipIfMatches (target : Z) (incident : Incident) : Incident :=
  if id incident =? target
  then mkIncident (id incident) (title incident) (description incident)
         (severity incident) (reported_at incident)
         (negb (acknowledged incident)) (tags incident)
  else incident.

(** Lines 87-95. *)
Definition toggleAcknowledge (target : Z) (st : State) : State :=
  setIncidents (map (flipIfMatches target) (incidents st)) st.

(** Line 180, the click on "View Details" / "Hide Details" of the incident
    with id [i]. *)
Definition onViewDetails (i : Z) (st : State) : State :=
  setExpanded (match expanded st with
               | Some e => if e =? i then None else Some i
               | None => Some i
               end) st.

(** Line 191: the detail panel of the incident with id [i] is shown. *)
Definition isExpanded (st : State) (i : Z) : bool :=
  match expanded st with
  | Some e => e =? i
  | None => false
  end.

(** The form's field setters (lines 142, 147, 153, 157). *)
Definition setTitle (v : string) (st : State) : State :=
  let d := newIncident st in
  setNewIncident (Draft.mk v (Draft.description d) (Draft.severity d) (Draft.tags d)) st.

Definition setDescription (v : string) (st : State) : State :=
  let d := newIncident st in
  setNewIncident (Draft.mk (Draft.title d) v (Draft.severity d) (Draft.tags d)) st.

Definition setTags (v : string) (st : State) : State :=
  let d := newIncident st in
  setNewIncident (Draft.mk (Draft.title d) (Draft.description d) (Draft.severity d) v) st.

Definition setSeverity (v : string) (st : State) : State :=
  let d := newIncident st in
  setNewIncident (Draft.mk (Draft.title d) (Draft.description d) v (Draft.tags d)) st.

(** *** Runs *)

(** What the user can do; each event is handled on the state of the last
    render. *)
Inductive Event :=
| Submit (now today : Z)
| Acknowledge (target : Z)
| ViewDetails (i : Z)
| TypeSearch (v : string)
| PickFilter (v : string)
| PickSortOrder (v : string)
| TypeTitle (v : string)
| TypeDescription (v : string)
| TypeTags (v : string)
| PickSeverity (v : string).

Definition step (st : State) (e : Event) : State :=
  match e with
  | Submit now today => handleAddIncident now today st
  | Acknowledge target => toggleAcknowledge target st
  | ViewDetails i => onViewDetails i st
  | TypeSearch v => setSearch v st
  | PickFilter v => setFilter v st
  | PickSortOrder v => setSortOrder v st
  | TypeTitle v => setTitle v st
  | TypeDescription v => setDescription v st
  | TypeTags v => setTags v st
  | PickSeverity v => setSeverity v st
  end.

Definition run (evs : list Event) (st : State) : State := fold_left step evs st.

End App.

(** * The vocabulary of the properties *)

Module Spec.
Import App.

(** ** Strings *)

Fixpoint allWhiteSpace (s : string) : bool :=
  match s with
  | EmptyString => true
  | String c s' => JS.isWhiteSpace c && allWhiteSpace s'
  end.

(** The code unit [c] occurs in [s]. *)
Fixpoint occurs (c : ascii) (s : string) : bool :=
  match s with
  | EmptyString => false
  | String a s' => Ascii.eqb a c || occurs c s'
  end.

(** [srch] occurs in [text] when both are put in lower case. *)
Definition containsCI (srch text : string) : Prop :=
  exists pre post,
    JS.toLowerCase text = (pre ++ JS.toLowerCase srch ++ post)%string.

(** ** Lists *)

(** [l1] is [l2] with some elements left out: what stays keeps its order. *)
Inductive Subseq {A : Type} : list A -> list A -> Prop :=
| Subseq_nil : Subseq [] []
| Subseq_keep x l1 l2 : Subseq l1 l2 -> Subseq (x :: l1) (x :: l2)
| Subseq_drop x l1 l2 : Subseq l1 l2 -> Subseq l1 (x :: l2).

(** The comparator that orders by [key], ascending. *)
Definition byKey {A : Type} (key : A -> Z) (x y : A) : JS.number :=
  Some (key x - key y).

Definition keyLe {A : Type} (key : A -> Z) (x y : A) : Prop := key x <= key y.

Definition hasKey {A : Type} (key : A -> Z) (k : Z) (x : A) : bool := key x =? k.

(** ** Report times *)

Section Host.
Variable Date_parse : string -> JS.number.

(** The report time of [i] is an instant for the host, not [NaN]. *)
Definition timed (i : Incident) : Prop := getTime Date_parse i <> None.

(** [a] was reported no later than [b]; both report times are instants. *)
Definition notAfter (a b : Incident) : Prop :=
  exists ta tb,
    getTime Date_parse a = Some ta /\ getTime Date_parse b = Some tb /\ ta <= tb.

(** The order the list is shown in. *)
Definition inOrder (order : string) (a b : Incident) : Prop :=
  if (order =? "newest")%string then notAfter b a else notAfter a b.

(** [i] was reported at the instant [t]. *)
Definition reportedAt (t : Z) (i : Incident) : bool :=
  match getTime Date_parse i with
  | Some u => u =? t
  | None => false
  end.

Definition instant (i : Incident) : Z :=
  match getTime Date_parse i with
  | Some t => t
  | None => 0
  end.

(** The key the comparator sorts by, ascending. *)
Definition sortKey (order : string) (i : Incident) : Z :=
  if (order =? "newest")%string then - instant i else instant i.

End Host.

(** 0000-01-01T00:00:00.000Z and 9999-12-31T23:59:59.999Z, the times
    [toISOString] writes with a year of four digits. *)
Definition minTime : Z := -62167219200000.
Definition maxTime : Z := 253402300799999.

(** ** Runs *)

Definition ids (st : State) : list Z := map id (incidents st).

(** Every [Date.now()] reading of the run (one is taken by each submission
    that is not refused) is above [last] and above the readings taken
    before it. *)
Fixpoint clockIncreasing (last : Z) (evs : list Event) (st : State) : Prop :=
  match evs with
  | [] => True
  | e :: evs' =>
      match e with
      | Submit now _ =>
          if refused (newIncident st)
          then clockIncreasing last evs' (step st e)
          else last < now /\ clockIncreasing now evs' (step st e)
      | _ => clockIncreasing last evs' (step st e)
      end
  end.

(** The [new Date()] reading of a submission lies in the years
    0000 .. 9999. *)
Definition clockInRange (e : Event) : Prop :=
  match e with
  | Submit _ today => minTime <= today <= maxTime
  | _ => True
  end.

(** The host reads what a submission writes as its report time. *)
Definition readable (Date_parse : string -> JS.number) (e : Event) : Prop :=
  match e with
  | Submit _ today => Date_parse (Date.toISOString today) <> None
  | _ => True
  end.

(** The ids are pairwise distinct and none is above [last]. *)
Definition distinctBelow (last : Z) (st : State) : Prop :=
  NoDup (ids st) /\ Forall (fun i => i <= last) (ids st).

End Spec.

(** * Sample data *)

Module Samples.
Import App.

(** The state the form is in when "T", "D", "High" and "a, b ,, c" have been
    entered on the seed data. *)
Definition filledForm : State :=
  setNewIncident (Draft.mk "T" "D" "High" "a, b ,, c") initialState.

(** The same with a title of three spaces. *)
Definition blankTitleForm : State :=
  setNewIncident (Draft.mk "   " "D" "High" "a, b ,, c") initialState.

(** An incident without tags. *)
Definition plain (n : Z) (sev : string) : Incident :=
  mkIncident n "t" "d" sev "2025-03-15T10:00:00Z" false None.

(** Four incidents of severities Low, High, Medium, High. *)
Definition fourSeverities : list Incident :=
  [plain 1 "Low"; plain 2 "High"; plain 3 "Medium"; plain 4 "High"].

(** An incident that only its tag "LLM" can match. *)
Definition taggedLLM : Incident :=
  mkIncident 9 "Outage" "Nothing to see" "Low" "2025-03-15T10:00:00Z" false
    (Some ["LLM"]).

(** An incident reported at [date]. *)
Definition onDate (n : Z) (date : string) : Incident :=
  mkIncident n "t" "d" "Low" date false None.

(** Incidents reported on the three dates of the example, in store order. *)
Definition threeDates (order : string) : State :=
  setSortOrder order
    (setIncidents
       [onDate 1 "2025-03-15"; onDate 2 "2025-04-01"; onDate 3 "2025-03-20"]
       initialState).

(** Two incidents reported at one instant around a later one. *)
Definition tiedDates (order : string) : State :=
  setSortOrder order
    (setIncidents
       [onDate 1 "2025-03-15"; onDate 2 "2025-04-01"; onDate 3 "2025-03-15"]
       initialState).

(** A later report, written with milliseconds, stored before an earlier
    one written without; the list is to show the oldest first. *)
Definition mixedFormats : State :=
  setSortOrder "oldest"
    (setIncidents
       [onDate 1 "2025-03-15T10:00:00.500Z"; onDate 2 "2025-03-15T10:00:00Z"]
       initialState).

(** Two submissions that read the same millisecond. *)
Definition sameMillisecond : list Event :=
  [ TypeTitle "First"; TypeDescription "D"; Submit 1746093600000 1746093600000;
    TypeTitle "Second"; TypeDescription "D"; Submit 1746093600000 1746093600000 ].

(** Two submissions one millisecond apart. *)
Definition nextMillisecond : list Event :=
  [ TypeTitle "First"; TypeDescription "D"; Submit 1746093600000 1746093600000;
    Acknowledge 2;
    TypeTitle "Second"; TypeDescription "D"; Submit 1746093600001 1746093600001 ].

(** The same, then a click on "View Details" of one of the two. *)
Definition twoPanels : list Event :=
  sameMillisecond ++ [ViewDetails 1746093600000].

End Samples.

(** * The rendered item (lines 177-220) *)

Module Render.
Import App.

(** Line 181, the text of the details button. *)
Definition detailsLabel (st : State) (incident : Incident) : string :=
  if isExpanded st (id incident) then "Hide Details" else "View Details".

(** Line 184, the class of the acknowledge button. *)
Definition acknowledgeClass (incident : Incident) : string :=
  if acknowledged incident then "acknowledged" else "unacknowledged".

(** Line 187, the text of the acknowledge button. *)
Definition acknowledgeLabel (incident : Incident) : string :=
  if acknowledged incident then "Acknowledged" else "Acknowledge".

(** Line 200, [incident.tags && incident.tags.length > 0]: the tag chips
    are part of the detail panel. *)
Definition showsTags (incident : Incident) : bool :=
  match tags incident with
  | Some (_ :: _) => true
  | Some [] => false
  | None => false
  end.

End Render.

(** * More vocabulary *)

Module Props.
Import App Spec.

(** The draft was let in: neither text is blank after trimming. *)
Definition admitted (i : Incident) : Prop :=
  JS.trim (title i) <> EmptyString /\ JS.trim (description i) <> EmptyString.

(** A tag as [parseTags] leaves it: not empty, without a comma, and with
    nothing for [trim] to remove. *)
Definition cleanTag (tag : string) : Prop :=
  tag <> EmptyString /\ occurs "," tag = false /\ JS.trim tag = tag.

Definition cleanTags (i : Incident) : Prop :=
  exists ts, tags i = Some ts /\ Forall cleanTag ts.

(** One of the three options of the severity selects (lines 159-161). *)
Definition isSeverity (s : string) : Prop :=
  s = "Low" \/ s = "Medium" \/ s = "High".

(** A pick in the form's severity select is one of its options. *)
Definition picksOption (e : Event) : Prop :=
  match e with
  | PickSeverity v => isSeverity v
  | _ => True
  end.

(** The same incident, whatever its acknowledged flag. *)
Definition sameButFlag (a b : Incident) : Prop :=
  id a = id b /\ title a = title b /\ description a = description b
  /\ severity a = severity b /\ reported_at a = reported_at b
  /\ tags a = tags b.

(** Every code unit of [s] is a comma or white space. *)
Fixpoint onlySeparators (s : string) : bool :=
  match s with
  | EmptyString => true
  | String c s' => (Ascii.eqb c "," || JS.isWhiteSpace c) && onlySeparators s'
  end.

(** Empty once trimmed: the sense in which the form takes a title or a
    description to be empty (line 73). *)
Definition blank (s : string) : Prop := JS.trim s = EmptyString.

(** A search text of two spaces. *)
Definition twoSpaces : string := "  ".

(** Both filters of the view in one predicate. *)
Definition keeps (st : State) (i : Incident) : bool :=
  severityKeep (filter st) i && searchKeep (search st) i.

End Props.

(** * Properties *)

(** ** Facts about the string built-ins *)

Module JSFacts.
Import JS Spec.

(** A tab and spaces in front, a space and a no-break space behind. *)
Example trim_ex :
  JS.trim (String (ascii_of_nat 9) "  a b " ++ String (ascii_of_nat 160) "")
  = "a b".
Proof. reflexivity. Qed.

Example split_ex : JS.split "," "a, b ,, c" = ["a"; " b "; ""; " c"].
Proof. reflexivity. Qed.

Lemma prefix_app (p s : string) :
  prefix p s = true <-> exists post, s = (p ++ post)%string.
Proof.
  revert s; induction p as [|a p IH]; intros s; simpl.
  - split; [intros _; now exists s | now destruct s].
  - destruct s as [|b s].
    + split; [discriminate | intros [post H]; discriminate].
    + simpl. destruct (ascii_dec a b) as [Hab|Hab].
      * subst b. rewrite IH. split; intros [post H]; exists post.
        -- now rewrite H.
        -- now injection H.
      * split; [discriminate |].
        intros [post H]. injection H as Hb _. now subst.
Qed.

(** [includes] is the substring test. *)
Lemma includes_spec (s pat : string) :
  includes s pat = true <->
  exists pre post, s = (pre ++ pat ++ post)%string.
Proof.
  induction s as [|c s IH]; cbn [includes].
  - rewrite orb_false_r, prefix_app. split.
    + intros [post H]. now exists EmptyString, post.
    + intros [pre [post H]]. destruct pre; [now exists post | discriminate].
  - rewrite orb_true_iff, prefix_app, IH. split.
    + intros [[post H] | [pre [post H]]].
      * now exists EmptyString, post.
      * exists (String c pre), post. simpl. now rewrite H.
    + intros [[|c' pre] [post H]].
      * left. now exists post.
      * right. injection H as _ H. now exists pre, post.
Qed.

Lemma includes_empty (s : string) : includes s EmptyString = true.
Proof. destruct s; reflexivity. Qed.

Lemma trimStart_decompose (s : string) :
  exists pre, s = (pre ++ trimStart s)%string /\ allWhiteSpace pre = true.
Proof.
  induction s as [|c s [pre [H1 H2]]]; simpl.
  - now exists EmptyString.
  - destruct (isWhiteSpace c) eqn:Hc.
    + exists (String c pre). simpl. rewrite Hc, H2. split; [now rewrite <- H1 | reflexivity].
    + now exists EmptyString.
Qed.

Lemma trimStart_head (s : string) (c : ascii) (r : string) :
  trimStart s = String c r -> isWhiteSpace c = false.
Proof.
  induction s as [|a s IH]; simpl; [discriminate |].
  destruct (isWhiteSpace a) eqn:Ha; [exact IH |].
  intros H. injection H as -> _. exact Ha.
Qed.

Lemma trimEnd_decompose (s : string) :
  exists post, s = (trimEnd s ++ post)%string /\ allWhiteSpace post = true.
Proof.
  induction s as [|c s [post [H1 H2]]]; simpl.
  - now exists EmptyString.
  - destruct (trimEnd s) as [|b r] eqn:Hr.
    + destruct (isWhiteSpace c) eqn:Hc.
      * exists (String c post). simpl in *. rewrite Hc, H2. now subst s.
      * exists post. simpl in *. now subst s.
    + exists post. simpl in *. split; [now rewrite <- H1 | assumption].
Qed.

Lemma trimEnd_last (s r : string) (c : ascii) :
  trimEnd s = (r ++ String c EmptyString)%string -> isWhiteSpace c = false.
Proof.
  revert r; induction s as [|a s IH]; intros r; simpl.
  - destruct r; discriminate.
  - destruct (trimEnd s) as [|b t] eqn:Ht.
    + destruct (isWhiteSpace a) eqn:Ha.
      * destruct r; discriminate.
      * destruct r as [|a' [|? ?]]; simpl; intros H; try discriminate.
        injection H as Hac. now subst.
    + destruct r as [|a' r']; simpl; intros H; [discriminate |].
      injection H as _ H. exact (IH r' H).
Qed.

Lemma trimEnd_head (s : string) (c : ascii) (r : string) :
  trimEnd s = String c r -> exists r', s = String c r'.
Proof.
  destruct s as [|a s]; simpl; [discriminate |].
  destruct (trimEnd s); [destruct (isWhiteSpace a) |]; intros H;
    try discriminate; injection H as <- _; now eexists.
Qed.

Lemma trimEnd_blank (s : string) :
  trimEnd s = EmptyString <-> allWhiteSpace s = true.
Proof.
  induction s as [|c s IH]; simpl; [tauto |].
  destruct (trimEnd s) as [|b r].
  - destruct (isWhiteSpace c); simpl.
    + rewrite <- IH. tauto.
    + split; discriminate.
  - rewrite andb_true_iff, <- IH. split; [discriminate | intros [_ H]; discriminate].
Qed.

Lemma allWhiteSpace_app (a b : string) :
  allWhiteSpace (a ++ b) = allWhiteSpace a && allWhiteSpace b.
Proof.
  induction a as [|c a IH]; simpl; [reflexivity |].
  now rewrite IH, andb_assoc.
Qed.

(** [trim] removes a run of white space at each end and nothing else. *)
Lemma trim_decompose (s : string) :
  exists pre post,
    s = (pre ++ trim s ++ post)%string
    /\ allWhiteSpace pre = true /\ allWhiteSpace post = true.
Proof.
  destruct (trimStart_decompose s) as [pre [H1 H2]].
  destruct (trimEnd_decompose (trimStart s)) as [post [H3 H4]].
  exists pre, post. unfold trim. now rewrite <- H3.
Qed.

Lemma trim_head (s : string) (c : ascii) (r : string) :
  trim s = String c r -> isWhiteSpace c = false.
Proof.
  unfold trim. intros H.
  destruct (trimEnd_head _ _ _ H) as [r' Hr'].
  exact (trimStart_head _ _ _ Hr').
Qed.

Lemma trim_last (s r : string) (c : ascii) :
  trim s = (r ++ String c EmptyString)%string -> isWhiteSpace c = false.
Proof. apply trimEnd_last. Qed.

(** A string is blank after trimming exactly when it is all white space. *)
Lemma trim_blank (s : string) :
  truthy (trim s) = false <-> allWhiteSpace s = true.
Proof.
  destruct (trimStart_decompose s) as [pre [H1 H2]].
  unfold trim. split.
  - intros H. destruct (trimEnd (trimStart s)) eqn:Ht; [|discriminate].
    apply trimEnd_blank in Ht.
    now rewrite H1, allWhiteSpace_app, H2, Ht.
  - intros H. rewrite H1, allWhiteSpace_app, H2 in H. simpl in H.
    apply trimEnd_blank in H. now rewrite H.
Qed.

Lemma truthy_iff (s : string) : truthy s = true <-> s <> EmptyString.
Proof. destruct s; simpl; split; congruence. Qed.

Lemma split_nonempty (sep : ascii) (s : string) : split sep s <> [].
Proof.
  destruct s as [|c s]; simpl; [discriminate |].
  destruct (Ascii.eqb c sep); [discriminate |].
  destruct (split sep s); discriminate.
Qed.

(** The pieces, joined by the separator, are the string that was split. *)
Lemma join_split (sep : ascii) (s : string) : join sep (split sep s) = s.
Proof.
  induction s as [|c s IH]; simpl; [reflexivity |].
  destruct (Ascii.eqb c sep) eqn:Hc.
  - apply Ascii.eqb_eq in Hc. subst c.
    destruct (split sep s) as [|p rest] eqn:Hs.
    + now destruct (split_nonempty sep s).
    + simpl in *. now rewrite IH.
  - destruct (split sep s) as [|p rest] eqn:Hs.
    + now destruct (split_nonempty sep s).
    + destruct rest; simpl in *; now rewrite <- IH.
Qed.

(** No piece contains the separator. *)
Lemma split_no_sep (sep : ascii) (s : string) :
  Forall (fun p => occurs sep p = false) (split sep s).
Proof.
  induction s as [|c s IH]; simpl.
  - now constructor.
  - destruct (Ascii.eqb c sep) eqn:Hc.
    + now constructor.
    + destruct (split sep s) as [|p rest] eqn:Hs;
        [now destruct (split_nonempty sep s) | ].
      inversion IH; subst. constructor; [simpl; now rewrite Hc | assumption].
Qed.

End JSFacts.

(** ** Facts about dates *)

Module DateFacts.
Import Date Spec.

Example toISOString_seed :
  Date.toISOString 1742032800000 = "2025-03-15T10:00:00.000Z".
Proof. reflexivity. Qed.

Example iso_parse_seed :
  Date.iso_parse "2025-03-15T10:00:00Z" = Some 1742032800000.
Proof. reflexivity. Qed.

(** Case analysis on the comparisons a goal branches on. *)
Ltac split_ifs :=
  repeat match goal with
    | |- context [if ?a <? ?b then _ else _] =>
        destruct (Z.ltb_spec a b); try lia
    | |- context [if ?a <=? ?b then _ else _] =>
        destruct (Z.leb_spec a b); try lia
    | |- context [?a =? ?b] =>
        destruct (Z.eqb_spec a b); try lia
    end.

(** The last day of a year that starts in March is 29 February of a leap
    year. *)
Lemma leap_day (doe era : Z) :
  0 <= doe < 146097 ->
  let yoe := (doe - doe / 1460 + doe / 36524 - doe / 146096) / 365 in
  doe - (365 * yoe + yoe / 4 - yoe / 100) = 365 ->
  is_leap (yoe + era * 400 + 1) = true.
Proof.
  intros H yoe Hd. unfold is_leap.
  assert (Hyoe : 0 <= yoe <= 399) by (subst yoe; Z.div_mod_to_equations; lia).
  assert (H4 : (yoe + 1) mod 4 = 0)
    by (subst yoe; Z.div_mod_to_equations; lia).
  assert (H100 : (yoe + 1) mod 100 <> 0 \/ yoe = 399)
    by (subst yoe; Z.div_mod_to_equations; lia).
  clearbody yoe.
  assert (E4 : (yoe + era * 400 + 1) mod 4 = 0)
    by (Z.div_mod_to_equations; lia).
  rewrite E4. cbn. destruct H100 as [H100|H100].
  - assert (E100 : (yoe + era * 400 + 1) mod 100 <> 0)
      by (Z.div_mod_to_equations; lia).
    apply Z.eqb_neq in E100. now rewrite E100.
  - assert (E : (yoe + era * 400 + 1) mod 400 = 0)
      by (Z.div_mod_to_equations; lia).
    rewrite E. apply orb_true_r.
Qed.

Lemma civil_from_days_valid (z : Z) :
  let '(y, m, d) := civil_from_days z in
  1 <= m <= 12 /\ 1 <= d <= days_in_month y m /\ days_from_civil y m d = z.
Proof.
  unfold civil_from_days. cbv zeta.
  set (era := (z + 719468) / 146097).
  set (doe := z + 719468 - era * 146097).
  assert (Hdoe : 0 <= doe < 146097)
    by (subst doe era; Z.div_mod_to_equations; lia).
  assert (Ez : z = era * 146097 + doe - 719468) by (subst doe; lia).
  clearbody doe. clearbody era.
  pose proof (leap_day doe era Hdoe) as Hleap. cbv zeta in Hleap.
  set (yoe := (doe - doe / 1460 + doe / 36524 - doe / 146096) / 365) in *.
  assert (Hyoe : 0 <= yoe <= 399)
    by (subst yoe; Z.div_mod_to_equations; lia).
  set (doy := doe - (365 * yoe + yoe / 4 - yoe / 100)) in *.
  assert (Hdoy : 0 <= doy <= 365)
    by (subst doy yoe; Z.div_mod_to_equations; lia).
  assert (Edoe : doe = 365 * yoe + yoe / 4 - yoe / 100 + doy)
    by (subst doy; lia).
  clearbody doy. clearbody yoe.
  remember ((5 * doy + 2) / 153) as mp eqn:Emp.
  assert (Hmp : mp = 0 \/ mp = 1 \/ mp = 2 \/ mp = 3 \/ mp = 4 \/ mp = 5
                \/ mp = 6 \/ mp = 7 \/ mp = 8 \/ mp = 9 \/ mp = 10 \/ mp = 11)
    by (subst mp; Z.div_mod_to_equations; lia).
  subst z. unfold days_in_month, days_from_civil. cbv zeta.
  repeat destruct Hmp as [Hmp|Hmp]; rewrite Hmp in *; clear Hmp;
    split_ifs; cbn [orb];
    try (Z.div_mod_to_equations; lia).
  destruct (is_leap (yoe + era * 400 + 1)) eqn:Hl.
  - Z.div_mod_to_equations; lia.
  - assert (doy <> 365) by (intros E; specialize (Hleap E); discriminate).
    Z.div_mod_to_equations; lia.
Qed.

(** Days -719528 .. 2932896 are the years 0000 .. 9999. *)
Lemma civil_year_range (z : Z) :
  -719528 <= z <= 2932896 ->
  let '(y, m, d) := civil_from_days z in 0 <= y <= 9999.
Proof.
  intros Hz. unfold civil_from_days. cbv zeta.
  set (era := (z + 719468) / 146097).
  set (doe := z + 719468 - era * 146097).
  assert (Hdoe : 0 <= doe < 146097)
    by (subst doe era; Z.div_mod_to_equations; lia).
  assert (Hera : -1 <= era <= 24)
    by (subst era; Z.div_mod_to_equations; lia).
  assert (Hlow : era = -1 -> 146037 <= doe) by (subst doe; lia).
  assert (Hhigh : era = 24 -> doe <= 146036) by (subst doe; lia).
  clearbody doe. clearbody era. clear Hz.
  set (yoe := (doe - doe / 1460 + doe / 36524 - doe / 146096) / 365).
  assert (Hyoe : 0 <= yoe <= 399)
    by (subst yoe; Z.div_mod_to_equations; lia).
  set (doy := doe - (365 * yoe + yoe / 4 - yoe / 100)).
  assert (Hdoy : 0 <= doy <= 365)
    by (subst doy yoe; Z.div_mod_to_equations; lia).
  assert (Hl : era = -1 -> yoe = 399 /\ 306 <= doy)
    by (subst doy yoe; Z.div_mod_to_equations; lia).
  assert (Hh : era = 24 -> yoe <= 398 \/ doy < 306)
    by (subst doy yoe; Z.div_mod_to_equations; lia).
  clearbody doy. clearbody yoe.
  remember ((5 * doy + 2) / 153) as mp eqn:Emp.
  assert (Hmp : 0 <= mp <= 11 /\ (10 <= mp <-> 306 <= doy))
    by (subst mp; Z.div_mod_to_equations; lia).
  clear Emp. split_ifs.
Qed.

Lemma digits_app (w : nat) (z : Z) (acc rest : string) :
  (digits w z acc ++ rest)%string = digits w z (acc ++ rest).
Proof.
  revert z acc; induction w as [|w IH]; intros z acc; cbn; [reflexivity |].
  now rewrite IH.
Qed.

Lemma digit_value_digit (d : Z) :
  0 <= d <= 9 -> digit_value (digit d) = Some d.
Proof.
  intros H.
  assert (Hd : d = 0 \/ d = 1 \/ d = 2 \/ d = 3 \/ d = 4 \/ d = 5
               \/ d = 6 \/ d = 7 \/ d = 8 \/ d = 9) by lia.
  repeat destruct Hd as [Hd|Hd]; subst d; reflexivity.
Qed.

Lemma take_num_snoc (w : nat) (a : Z) (s : string) :
  take_num (S w) a s
  = bind (take_num w a s) (fun '(v, s') => take_num 1 v s').
Proof.
  revert a s; induction w as [|w IH]; intros a s; [reflexivity |].
  change (take_num (S (S w)) a s)
    with (match s with
          | EmptyString => None
          | String c s' =>
              match digit_value c with
              | Some v => take_num (S w) (10 * a + v) s'
              | None => None
              end
          end).
  destruct s as [|c s']; [reflexivity |]. cbn [take_num bind].
  destruct (digit_value c) as [v|]; [| reflexivity].
  apply IH.
Qed.

(** Reading back the digits that were written. *)
Lemma take_num_digits (w : nat) (z a : Z) (s : string) :
  0 <= z ->
  take_num w a (digits w z s)
  = Some (a * 10 ^ Z.of_nat w + z mod 10 ^ Z.of_nat w, s).
Proof.
  revert z s; induction w as [|w IH]; intros z s Hz.
  - cbn. rewrite Z.mod_1_r. do 2 f_equal. lia.
  - rewrite take_num_snoc. cbn [digits].
    rewrite IH by (apply Z.div_pos; lia). cbn [bind take_num].
    rewrite digit_value_digit
      by (pose proof (Z.mod_pos_bound z 10 eq_refl); lia).
    do 2 f_equal. rewrite Nat2Z.inj_succ, Z.pow_succ_r by lia.
    rewrite (Z.rem_mul_r z 10 (10 ^ Z.of_nat w)) by lia. lia.
Qed.

Lemma take_num_pad (w : nat) (z : Z) (rest : string) :
  0 <= z < 10 ^ Z.of_nat w ->
  take_num w 0 (pad w z ++ rest) = Some (z, rest).
Proof.
  intros Hz. unfold pad. rewrite digits_app. cbn [append].
  rewrite take_num_digits by lia. rewrite Z.mod_small by lia.
  reflexivity.
Qed.

(** What [toISOString] writes for a time in the years 0000 .. 9999, the
    parser reads back as the same time. *)
Lemma iso_parse_toISOString (t : Z) :
  minTime <= t <= maxTime -> iso_parse (toISOString t) = Some t.
Proof.
  unfold minTime, maxTime. intros Ht. unfold toISOString.
  assert (Hday : -719528 <= t / msPerDay <= 2932896)
    by (unfold msPerDay; Z.div_mod_to_equations; lia).
  pose proof (civil_year_range _ Hday) as Hy.
  pose proof (civil_from_days_valid (t / msPerDay)) as Hv.
  destruct (civil_from_days (t / msPerDay)) as [[y m] d].
  destruct Hv as [Hm [Hd Hdays]].
  assert (Hd31 : d <= 31).
  { unfold days_in_month in Hd. destruct Hd as [_ Hd]. revert Hd.
    destruct (m =? 2); [destruct (is_leap y) |];
      [| | destruct ((m =? 4) || (m =? 6) || (m =? 9) || (m =? 11))]; lia. }
  set (r := t mod msPerDay).
  assert (Hr : 0 <= r < 86400000)
    by (subst r; unfold msPerDay; Z.div_mod_to_equations; lia).
  assert (Et : t = days_from_civil y m d * msPerDay + r)
    by (rewrite Hdays; subst r; unfold msPerDay; Z.div_mod_to_equations; lia).
  clearbody r.
  replace ((0 <=? y) && (y <=? 9999)) with true
    by (symmetry; apply andb_true_iff; split; apply Z.leb_le; lia).
  unfold iso_parse.
  rewrite take_num_pad by (cbn; lia). cbn [bind append expect Ascii.eqb Bool.eqb].
  rewrite take_num_pad by (cbn; lia). cbn [bind append expect Ascii.eqb Bool.eqb].
  rewrite take_num_pad by (cbn; lia). cbn [bind append expect Ascii.eqb Bool.eqb].
  replace ((1 <=? m) && (m <=? 12) && (1 <=? d) && (d <=? days_in_month y m))
    with true
    by (symmetry; rewrite !andb_true_iff; repeat split; apply Z.leb_le; lia).
  unfold parse_time.
  rewrite take_num_pad by (cbn; Z.div_mod_to_equations; lia).
  cbn [bind append expect Ascii.eqb Bool.eqb].
  rewrite take_num_pad by (cbn; Z.div_mod_to_equations; lia).
  cbn [bind append expect Ascii.eqb Bool.eqb].
  rewrite take_num_pad by (cbn; Z.div_mod_to_equations; lia).
  cbn [bind append expect Ascii.eqb Bool.eqb].
  replace ((r / 3600000 <=? 23) && (r / 60000 mod 60 <=? 59)
           && (r / 1000 mod 60 <=? 59)) with true
    by (symmetry; rewrite !andb_true_iff; repeat split; apply Z.leb_le;
        Z.div_mod_to_equations; lia).
  rewrite take_num_pad by (cbn; Z.div_mod_to_equations; lia).
  cbn [bind]. f_equal. rewrite Et. Z.div_mod_to_equations; lia.
Qed.

End DateFacts.

(** ** Facts about [sort] *)

Module SortFacts.
Import JSArray Spec.

Section Perm.
Context {A : Type}.
Variable comparefn : A -> A -> JS.number.

Lemma insert_perm (x : A) (l : list A) :
  Permutation (insert comparefn x l) (x :: l).
Proof.
  induction l as [|y l IH]; simpl; [reflexivity |].
  destruct (sortCompare comparefn x y >? 0); [| reflexivity].
  rewrite IH. apply perm_swap.
Qed.

Lemma sort_perm (l : list A) : Permutation (sort comparefn l) l.
Proof.
  induction l as [|x l IH]; simpl; [reflexivity |].
  rewrite insert_perm. now constructor.
Qed.

Lemma sort_In (l : list A) (x : A) : In x (sort comparefn l) <-> In x l.
Proof.
  split; apply Permutation_in; [| symmetry]; apply sort_perm.
Qed.

Lemma sort_length (l : list A) : length (sort comparefn l) = length l.
Proof. apply Permutation_length, sort_perm. Qed.
End Perm.

Section Ext.
Context {A : Type}.
Variables c1 c2 : A -> A -> JS.number.

Lemma insert_ext_in (x : A) (l : list A) :
  (forall y, In y l ->
     (sortCompare c1 x y >? 0) = (sortCompare c2 x y >? 0)) ->
  insert c1 x l = insert c2 x l.
Proof.
  induction l as [|y l IH]; intros H; simpl; [reflexivity |].
  rewrite (H y (or_introl eq_refl)).
  destruct (sortCompare c2 x y >? 0); [| reflexivity].
  f_equal. apply IH. intros z Hz. apply H. now right.
Qed.

(** Only the comparisons between elements of the array matter. *)
Lemma sort_ext_in (l : list A) :
  (forall x y, In x l -> In y l ->
     (sortCompare c1 x y >? 0) = (sortCompare c2 x y >? 0)) ->
  sort c1 l = sort c2 l.
Proof.
  induction l as [|x l IH]; intros H; simpl; [reflexivity |].
  rewrite IH by (intros a b Ha Hb; apply H; now right).
  apply insert_ext_in. intros y Hy. apply H; [now left |].
  right. now apply (sort_In c2 l y).
Qed.
End Ext.

Section Keyed.
Context {A : Type}.
Variable key : A -> Z.

Local Abbreviation byKey := (Spec.byKey key).
Local Abbreviation keyLe := (Spec.keyLe key).
Local Abbreviation hasKey := (Spec.hasKey key).

Lemma byKey_gt (x y : A) :
  (sortCompare byKey x y >? 0) = (key x >? key y).
Proof.
  unfold sortCompare, byKey. rewrite !Z.gtb_ltb.
  destruct (Z.ltb_spec 0 (key x - key y)), (Z.ltb_spec (key y) (key x));
    try reflexivity; lia.
Qed.

Lemma insert_sorted (x : A) (l : list A) :
  StronglySorted keyLe l -> StronglySorted keyLe (insert byKey x l).
Proof.
  induction l as [|y l IH]; intros Hl; simpl.
  - constructor; constructor.
  - rewrite byKey_gt. inversion Hl as [|? ? Hs Hall]; subst.
    destruct (key x >? key y) eqn:Hxy.
    + constructor; [now apply IH |].
      apply (Permutation_Forall (Permutation_sym (insert_perm byKey x l))).
      constructor; [| assumption].
      unfold keyLe. apply Z.gtb_lt in Hxy. lia.
    + rewrite Z.gtb_ltb in Hxy. apply Z.ltb_ge in Hxy.
      constructor; [assumption |].
      constructor; [assumption |].
      eapply Forall_impl; [| exact Hall].
      unfold keyLe. intros; lia.
Qed.

Lemma sort_sorted (l : list A) : StronglySorted keyLe (sort byKey l).
Proof.
  induction l as [|x l IH]; simpl; [constructor | now apply insert_sorted].
Qed.

Lemma insert_stable (k : Z) (x : A) (l : list A) :
  List.filter (hasKey k) (insert byKey x l) = List.filter (hasKey k) (x :: l).
Proof.
  induction l as [|y l IH]; [reflexivity |].
  cbn [insert]. rewrite byKey_gt.
  destruct (key x >? key y) eqn:Hxy; [| reflexivity].
  apply Z.gtb_lt in Hxy.
  cbn [List.filter] in *. rewrite IH. unfold hasKey.
  destruct (key y =? k) eqn:Hy, (key x =? k) eqn:Hx; try reflexivity.
  apply Z.eqb_eq in Hy, Hx. lia.
Qed.

(** Elements of equal key come out in the order they went in. *)
Lemma sort_stable (k : Z) (l : list A) :
  List.filter (hasKey k) (sort byKey l) = List.filter (hasKey k) l.
Proof.
  induction l as [|x l IH]; [reflexivity |].
  cbn [sort]. rewrite insert_stable. cbn [List.filter]. now rewrite IH.
Qed.

Lemma hasKey_refl (x : A) : hasKey (key x) x = true.
Proof. apply Z.eqb_refl. Qed.

Lemma filter_hasKey_In (k : Z) (l : list A) (x : A) :
  In x (List.filter (hasKey k) l) <-> In x l /\ key x = k.
Proof.
  rewrite filter_In. unfold hasKey. now rewrite Z.eqb_eq.
Qed.

(** Two key-ordered lists with the same elements of each key, in the same
    order, are the same list. *)
Lemma sorted_stable_unique (l1 l2 : list A) :
  StronglySorted keyLe l1 -> StronglySorted keyLe l2 ->
  (forall k, List.filter (hasKey k) l1 = List.filter (hasKey k) l2) ->
  l1 = l2.
Proof.
  revert l2; induction l1 as [|x l1 IH]; intros l2 H1 H2 Hf.
  - destruct l2 as [|y l2]; [reflexivity |].
    specialize (Hf (key y)). cbn [List.filter] in Hf.
    now rewrite hasKey_refl in Hf.
  - destruct l2 as [|y l2].
    + specialize (Hf (key x)). cbn [List.filter] in Hf.
      now rewrite hasKey_refl in Hf.
    + inversion H1 as [|? ? Hs1 Ha1]; inversion H2 as [|? ? Hs2 Ha2]; subst.
      assert (Hk : key x = key y).
      { assert (Hx : In x (y :: l2)).
        { apply (filter_hasKey_In (key x)). rewrite <- Hf.
          apply filter_hasKey_In. split; [now left | reflexivity]. }
        assert (Hy : In y (x :: l1)).
        { apply (filter_hasKey_In (key y)). rewrite Hf.
          apply filter_hasKey_In. split; [now left | reflexivity]. }
        rewrite Forall_forall in Ha1, Ha2. unfold keyLe in *.
        destruct Hx as [Hx|Hx]; [now subst |].
        destruct Hy as [Hy|Hy]; [now subst |].
        specialize (Ha1 y Hy). specialize (Ha2 x Hx). lia. }
      assert (Hxy : x = y).
      { specialize (Hf (key x)). cbn [List.filter] in Hf.
        rewrite hasKey_refl in Hf. rewrite Hk, hasKey_refl in Hf.
        now injection Hf. }
      subst y. f_equal. apply IH; try assumption.
      intros k. specialize (Hf k). cbn [List.filter] in Hf.
      destruct (hasKey k x); [now injection Hf | assumption].
Qed.

(** Whatever stable algorithm the engine runs, the result is the one
    computed here. *)
Lemma sort_unique (l out : list A) :
  StronglySorted keyLe out ->
  (forall k, List.filter (hasKey k) out = List.filter (hasKey k) l) ->
  out = sort byKey l.
Proof.
  intros Hs Hf. apply sorted_stable_unique; [assumption | apply sort_sorted |].
  intros k. now rewrite Hf, sort_stable.
Qed.
End Keyed.

Lemma StronglySorted_impl_in {A : Type} (R R' : A -> A -> Prop) (l : list A) :
  (forall x y, In x l -> In y l -> R x y -> R' x y) ->
  StronglySorted R l -> StronglySorted R' l.
Proof.
  induction l as [|a l IH]; intros H Hs; [constructor |].
  inversion Hs as [|? ? Hs' Hall]; subst. constructor.
  - apply IH; [| assumption]. intros x y Hx Hy. apply H; now right.
  - rewrite Forall_forall in *. intros y Hy.
    apply H; [now left | now right | now apply Hall].
Qed.

End SortFacts.

(** ** The add operation *)

Module AddFacts.
Import App Spec Samples.

(** A submitted tag is never empty, holds no comma and has no white space
    at either end. *)
Lemma parseTags_clean (raw tag : string) :
  In tag (parseTags raw) ->
  tag <> EmptyString
  /\ (exists piece, In piece (JS.split "," raw) /\ tag = JS.trim piece)
  /\ (forall c r, tag = String c r -> JS.isWhiteSpace c = false)
  /\ (forall r c, tag = (r ++ String c EmptyString)%string ->
        JS.isWhiteSpace c = false).
Proof.
  unfold parseTags. rewrite filter_In, in_map_iff.
  intros [[piece [Hp Hin]] Ht]. subst tag. repeat split.
  - now apply JSFacts.truthy_iff.
  - now exists piece.
  - intros c r. apply JSFacts.trim_head.
  - intros r c. apply JSFacts.trim_last.
Qed.

Example parseTags_example : parseTags "a, b ,, c" = ["a"; "b"; "c"].
Proof. reflexivity. Qed.

Example parseTags_no_tags : parseTags "" = [].
Proof. reflexivity. Qed.

Lemma accepted_draft (now today : Z) (st : State) :
  JS.trim (Draft.title (newIncident st)) <> EmptyString ->
  JS.trim (Draft.description (newIncident st)) <> EmptyString ->
  handleAddIncident now today st =
  setNewIncident Draft.empty
    (setIncidents
       (mkIncident now (Draft.title (newIncident st))
          (Draft.description (newIncident st))
          (Draft.severity (newIncident st))
          (Date.toISOString today) false
          (Some (parseTags (Draft.tags (newIncident st))))
        :: incidents st) st).
Proof.
  intros Ht Hd. unfold handleAddIncident, refused.
  apply JSFacts.truthy_iff in Ht, Hd. now rewrite Ht, Hd.
Qed.

Lemma refused_draft (now today : Z) (st : State) :
  JS.trim (Draft.title (newIncident st)) = EmptyString
  \/ JS.trim (Draft.description (newIncident st)) = EmptyString ->
  handleAddIncident now today st = st.
Proof.
  unfold handleAddIncident, refused. intros [H|H]; rewrite H; simpl;
    [reflexivity | now rewrite orb_true_r].
Qed.

(** C1. When the draft's title and description are not empty after
    trimming, [handleAddIncident] puts a new incident at index 0 of the
    store: not acknowledged, reported at the current time (the ISO text of
    the clock reading, which parses back to that reading), with the
    draft's severity (and title and description), and with the tags
    obtained from the raw tag text by splitting on commas, trimming each
    piece and dropping the empty ones, in order ("a, b ,, c" gives
    a, b, c); the incidents stored before follow unchanged in their order,
    the draft is reset to its empty defaults and the view controls are
    untouched. *)
Theorem add_prepends_new_incident (now today : Z) (st : State) :
  JS.trim (Draft.title (newIncident st)) <> EmptyString ->
  JS.trim (Draft.description (newIncident st)) <> EmptyString ->
  let d := newIncident st in
  let st' := handleAddIncident now today st in
  exists e,
    nth_error (incidents st') 0 = Some e
    /\ acknowledged e = false
    /\ reported_at e = Date.toISOString today
    /\ (minTime <= today <= maxTime ->
        Date.iso_parse (reported_at e) = Some today)
    /\ severity e = Draft.severity d
    /\ title e = Draft.title d
    /\ description e = Draft.description d
    /\ id e = now
    /\ tags e =
         Some (List.filter JS.truthy (map JS.trim (JS.split "," (Draft.tags d))))
    /\ List.filter JS.truthy (map JS.trim (JS.split "," "a, b ,, c"))
         = ["a"; "b"; "c"]
    /\ incidents st' = e :: incidents st
    /\ (forall k, nth_error (incidents st') (S k) = nth_error (incidents st) k)
    /\ length (incidents st') = S (length (incidents st))
    /\ newIncident st' = Draft.empty
    /\ Draft.empty = Draft.mk "" "" "Low" ""
    /\ filter st' = filter st /\ sortOrder st' = sortOrder st
    /\ expanded st' = expanded st /\ search st' = search st.
Proof.
  intros Ht Hd d st'. subst d st'.
  rewrite (accepted_draft now today st Ht Hd).
  eexists.
  cbn [incidents setNewIncident setIncidents nth_error newIncident filter
       sortOrder expanded search length].
  split; [reflexivity |].
  cbn [id title description severity reported_at acknowledged tags].
  split; [reflexivity |]. split; [reflexivity |].
  split; [apply DateFacts.iso_parse_toISOString |].
  repeat (split; [reflexivity |]). reflexivity.
Qed.

Lemma add_prepends_new_incident_witness :
  exists e,
    incidents (handleAddIncident 1746093600000 1746093600001 filledForm)
      = e :: initialIncidents
    /\ tags e = Some ["a"; "b"; "c"]
    /\ severity e = "High"
    /\ acknowledged e = false
    /\ reported_at e = "2025-05-01T10:00:00.001Z".
Proof.
  destruct (add_prepends_new_incident 1746093600000 1746093600001 filledForm)
    as [e [_ [Hack [Hrep [_ [Hsev [_ [_ [_ [Htags [_ [Hinc _]]]]]]]]]]]];
    [discriminate | discriminate |].
  exists e. repeat split; assumption.
Defined.

(** C2. When the draft's title or description is empty after trimming (a
    title of three spaces, say), [handleAddIncident] returns the state it
    was given: the store (its length, its elements and their order) and the
    draft are unchanged, and nothing else is; the handler has no other
    outcome. *)
Theorem add_blank_is_noop (now today : Z) (st : State) :
  JS.trim (Draft.title (newIncident st)) = EmptyString
  \/ JS.trim (Draft.description (newIncident st)) = EmptyString ->
  let st' := handleAddIncident now today st in
  st' = st
  /\ incidents st' = incidents st
  /\ length (incidents st') = length (incidents st)
  /\ newIncident st' = newIncident st.
Proof.
  intros H st'. subst st'. now rewrite (refused_draft now today st H).
Qed.

Lemma add_blank_is_noop_witness :
  JS.trim "   " = EmptyString
  /\ handleAddIncident 1746093600000 1746093600001 blankTitleForm
       = blankTitleForm.
Proof.
  split; [reflexivity |].
  apply (add_blank_is_noop 1746093600000 1746093600001 blankTitleForm).
  left. reflexivity.
Defined.

End AddFacts.

(** ** Acknowledging *)

Module ToggleFacts.
Import App Spec Samples.

Lemma flip_id (target : Z) (i : Incident) : id (flipIfMatches target i) = id i.
Proof. unfold flipIfMatches. now destruct (id i =? target). Qed.

Lemma flip_other (target : Z) (i : Incident) :
  id i <> target -> flipIfMatches target i = i.
Proof.
  intros H. unfold flipIfMatches.
  apply Z.eqb_neq in H. now rewrite H.
Qed.

Lemma flip_twice (target : Z) (i : Incident) :
  flipIfMatches target (flipIfMatches target i) = i.
Proof.
  unfold flipIfMatches at 2.
  destruct (id i =? target) eqn:H.
  - unfold flipIfMatches. cbn. rewrite H, negb_involutive. now destruct i.
  - unfold flipIfMatches. now rewrite H.
Qed.

Lemma toggle_incidents (target : Z) (st : State) :
  incidents (toggleAcknowledge target st)
  = map (flipIfMatches target) (incidents st).
Proof. reflexivity. Qed.

Lemma toggle_twice (target : Z) (st : State) :
  toggleAcknowledge target (toggleAcknowledge target st) = st.
Proof.
  destruct st as [l f o e d s]. unfold toggleAcknowledge, setIncidents. cbn.
  f_equal. rewrite map_map. rewrite <- (map_id l) at 2.
  apply map_ext. intros i. apply flip_twice.
Qed.

Lemma toggle_no_match (target : Z) (st : State) :
  (forall i, In i (incidents st) -> id i <> target) ->
  toggleAcknowledge target st = st.
Proof.
  destruct st as [l f o e d s]. unfold toggleAcknowledge, setIncidents. cbn.
  intros H. f_equal. rewrite <- (map_id l) at 2.
  apply map_ext_in. intros i Hi. now apply flip_other, H.
Qed.

(** The incident at a position after [n] toggles. *)
Lemma iter_toggle_nth (target : Z) (n : nat) (st : State) (k : nat) :
  nth_error (incidents (Nat.iter n (toggleAcknowledge target) st)) k
  = option_map (Nat.iter n (flipIfMatches target)) (nth_error (incidents st) k).
Proof.
  induction n as [|n IH].
  - cbn. now destruct (nth_error (incidents st) k).
  - change (Nat.iter (S n) (toggleAcknowledge target) st)
      with (toggleAcknowledge target (Nat.iter n (toggleAcknowledge target) st)).
    rewrite toggle_incidents, nth_error_map, IH.
    now destruct (nth_error (incidents st) k).
Qed.

Lemma iter_flip_matching (target : Z) (n : nat) (i : Incident) :
  id i = target ->
  Nat.iter n (flipIfMatches target) i
  = mkIncident (id i) (title i) (description i) (severity i) (reported_at i)
      (xorb (acknowledged i) (Nat.odd n)) (tags i).
Proof.
  intros Hid. induction n as [|n IH].
  - cbn. rewrite xorb_false_r. now destruct i.
  - change (Nat.iter (S n) (flipIfMatches target) i)
      with (flipIfMatches target (Nat.iter n (flipIfMatches target) i)).
    rewrite IH. unfold flipIfMatches. cbn [id acknowledged].
    apply Z.eqb_eq in Hid. rewrite Hid. cbn.
    rewrite Nat.odd_succ, <- Nat.negb_odd. f_equal.
    now destruct (acknowledged i), (Nat.odd n).
Qed.

Lemma odd_mod2 (n : nat) : Nat.odd n = (n mod 2 =? 1)%nat.
Proof.
  rewrite <- Nat.bit0_mod, Nat.bit0_odd.
  now destruct (Nat.odd n).
Qed.

(** C3. [toggleAcknowledge] keeps the length and the order of the store;
    at every position the id, title, description, severity, report time
    and tags are what they were, and the flag is negated exactly when the
    id is the given one; an incident with another id is the same record as
    before; with no incident of that id the state is unchanged; the draft
    and the view controls are never touched. *)
Theorem toggle_flips_only_the_flag (target : Z) (st : State) :
  let st' := toggleAcknowledge target st in
  length (incidents st') = length (incidents st)
  /\ (forall k i, nth_error (incidents st) k = Some i ->
        exists i',
          nth_error (incidents st') k = Some i'
          /\ id i' = id i /\ title i' = title i
          /\ description i' = description i /\ severity i' = severity i
          /\ reported_at i' = reported_at i /\ tags i' = tags i
          /\ acknowledged i' =
               (if id i =? target then negb (acknowledged i) else acknowledged i)
          /\ (id i <> target -> i' = i))
  /\ ((forall i, In i (incidents st) -> id i <> target) -> st' = st)
  /\ filter st' = filter st /\ sortOrder st' = sortOrder st
  /\ expanded st' = expanded st /\ newIncident st' = newIncident st
  /\ search st' = search st.
Proof.
  intros st'. subst st'. split; [| split; [| split]].
  - rewrite toggle_incidents. apply length_map.
  - intros k i Hk. exists (flipIfMatches target i).
    rewrite toggle_incidents, nth_error_map, Hk. split; [reflexivity |].
    unfold flipIfMatches. destruct (id i =? target) eqn:H; cbn;
      repeat split; try reflexivity.
    intros Hne. apply Z.eqb_eq in H. contradiction.
  - apply toggle_no_match.
  - repeat split; reflexivity.
Qed.

Lemma toggle_flips_only_the_flag_witness :
  exists i',
    nth_error (incidents (toggleAcknowledge 2 initialState)) 1 = Some i'
    /\ id i' = 2 /\ acknowledged i' = true
    /\ tags i' = Some ["Hallucination"; "LLM"]
    /\ toggleAcknowledge 7 initialState = initialState.
Proof.
  destruct (toggle_flips_only_the_flag 2 initialState) as [_ [H _]].
  destruct (H 1%nat _ eq_refl) as [i' [H1 [H2 [_ [_ [_ [_ [H3 [H4 _]]]]]]]]].
  exists i'. split; [exact H1 |]. split; [exact H2 |].
  split; [exact H4 |]. split; [exact H3 |].
  apply (toggle_flips_only_the_flag 7 initialState).
  cbn. intros i [<-|[<-|[<-|[]]]]; discriminate.
Defined.

(** C4. After [n] calls of [toggleAcknowledge] with the same id, every
    incident of that id is where it was and its flag is the initial one
    XOR (n mod 2 = 1), with its other fields unchanged; two calls in a row
    give back the state they started from. *)
Theorem toggle_n_times_parity (target : Z) (st : State) (n k : nat)
    (i : Incident) :
  nth_error (incidents st) k = Some i ->
  id i = target ->
  let st' := Nat.iter n (toggleAcknowledge target) st in
  (exists i',
     nth_error (incidents st') k = Some i'
     /\ acknowledged i' = xorb (acknowledged i) (n mod 2 =? 1)%nat
     /\ id i' = id i /\ title i' = title i /\ description i' = description i
     /\ severity i' = severity i /\ reported_at i' = reported_at i
     /\ tags i' = tags i)
  /\ length (incidents st') = length (incidents st)
  /\ toggleAcknowledge target (toggleAcknowledge target st) = st.
Proof.
  intros Hk Hid st'. subst st'. split; [| split].
  - eexists. rewrite iter_toggle_nth, Hk. cbn [option_map].
    rewrite (iter_flip_matching target n i Hid), <- odd_mod2.
    cbn. repeat split; reflexivity.
  - clear. induction n as [|n IH]; [reflexivity |].
    change (Nat.iter (S n) (toggleAcknowledge target) st)
      with (toggleAcknowledge target (Nat.iter n (toggleAcknowledge target) st)).
    rewrite toggle_incidents, length_map. exact IH.
  - apply toggle_twice.
Qed.

Lemma toggle_n_times_parity_witness :
  exists i',
    nth_error (incidents (Nat.iter 5 (toggleAcknowledge 2) initialState)) 1
      = Some i'
    /\ acknowledged i' = true.
Proof.
  destruct (toggle_n_times_parity 2 initialState 5 1 _ eq_refl eq_refl)
    as [[i' [H1 [H2 _]]] _].
  exists i'. split; assumption.
Defined.

End ToggleFacts.

(** ** The derived view *)

Module ViewFacts.
Import App Spec Samples.

Lemma filter_Subseq {A : Type} (f : A -> bool) (l : list A) :
  Subseq (List.filter f l) l.
Proof.
  induction l as [|x l IH]; simpl; [constructor |].
  destruct (f x); now constructor.
Qed.

Lemma includes_containsCI (srch text : string) :
  JS.includes (JS.toLowerCase text) (JS.toLowerCase srch) = true
  <-> containsCI srch text.
Proof. apply JSFacts.includes_spec. Qed.

Lemma containsCI_empty (text : string) : containsCI EmptyString text.
Proof. apply includes_containsCI, JSFacts.includes_empty. Qed.

Lemma severityKeep_iff (flt : string) (i : Incident) :
  severityKeep flt i = true <-> flt = "All" \/ severity i = flt.
Proof.
  unfold severityKeep. destruct (String.eqb_spec flt "All") as [H|H].
  - split; [now left | reflexivity].
  - rewrite String.eqb_eq. split; [now right | now intros [?|?]].
Qed.

Lemma tags_match_iff (srch : string) (ts : list string) :
  JS.some (tagMatches srch) ts = true
  <-> exists tag, In tag ts /\ containsCI srch tag.
Proof.
  unfold JS.some. rewrite existsb_exists.
  split; intros [tag [Hin H]]; exists tag; split; try assumption;
    now apply includes_containsCI.
Qed.

Lemma searchKeep_iff (srch : string) (i : Incident) :
  searchKeep srch i = true
  <-> containsCI srch (title i) \/ containsCI srch (description i)
      \/ exists ts tag, tags i = Some ts /\ In tag ts /\ containsCI srch tag.
Proof.
  unfold searchKeep. rewrite !orb_true_iff, !includes_containsCI.
  destruct (tags i) as [ts|].
  - rewrite tags_match_iff. split.
    + intros [[H|H]|[tag [H1 H2]]]; [now left | now right; left |].
      right; right. now exists ts, tag.
    + intros [H|[H|[ts' [tag [Hts [H1 H2]]]]]]; [now left; left | now left; right |].
      right. injection Hts as <-. now exists tag.
  - split.
    + intros [[H|H]|H]; [now left | now right; left | discriminate].
    + intros [H|[H|[ts' [tag [Hts _]]]]]; [now left; left | now left; right |].
      discriminate.
Qed.

(** C7. The severity filter keeps an incident exactly when the filter is
    "All" or is the incident's severity. It is the first stage of the
    view; it works element by element and left to right, so the kept
    incidents stand in their original relative order: with the filter
    "High", severities Low, High, Medium, High leave the two High incidents,
    the earlier one first. *)
Theorem severity_filter_keeps_matching (flt : string) (l : list Incident) :
  (forall i, severityKeep flt i = true <-> flt = "All" \/ severity i = flt)
  /\ (forall i, In i (severityFilter flt l)
        <-> In i l /\ (flt = "All" \/ severity i = flt))
  /\ Subseq (severityFilter flt l) l
  /\ (forall l1 l2, severityFilter flt (l1 ++ l2)
        = severityFilter flt l1 ++ severityFilter flt l2)
  /\ (forall i, severityFilter flt [i] = if severityKeep flt i then [i] else [])
  /\ severityFilter "All" l = l
  /\ (forall st, filtered st
        = searchFilter (search st) (severityFilter (filter st) (incidents st)))
  /\ severityFilter "High" fourSeverities = [plain 2 "High"; plain 4 "High"].
Proof.
  split; [intros i; apply severityKeep_iff |].
  split; [intros i; unfold severityFilter; now rewrite filter_In, severityKeep_iff |].
  split; [apply filter_Subseq |].
  split; [intros l1 l2; apply filter_app |].
  split; [reflexivity |].
  split; [| split; reflexivity].
  unfold severityFilter. induction l as [|x l IH]; simpl; [reflexivity |].
  now rewrite IH.
Qed.

(** C6, as stated, fails when "empty-equivalent" takes in a search text
    that is empty once trimmed: the search text is used as typed, so two
    spaces, which no seed title, description or tag contains, keep none of
    the seed incidents, while one space keeps all three. *)
Lemma blank_search_is_matched_as_typed :
  ~ (forall srch i,
       searchKeep srch i = true
       <-> Props.blank srch
           \/ containsCI srch (title i)
           \/ containsCI srch (description i)
           \/ exists ts tag,
                tags i = Some ts /\ In tag ts /\ containsCI srch tag)
  /\ Props.blank Props.twoSpaces
  /\ searchFilter Props.twoSpaces initialIncidents = []
  /\ searchFilter " " initialIncidents = initialIncidents.
Proof.
  split; [| repeat split; reflexivity].
  intros H.
  specialize (H Props.twoSpaces (plain 1 "Low")).
  assert (Hk : searchKeep Props.twoSpaces (plain 1 "Low") = true)
    by (apply H; left; reflexivity).
  discriminate Hk.
Qed.

(** C6, amended. The search filter keeps an incident exactly when the
    search text, taken as typed and not trimmed, is empty, or occurs, both
    sides in lower case, in the title, in the description or in one of the
    tags; the empty text occurs in every title, so this is the same as
    occurring in one of the three, and a search of white space is matched
    like any other text. Searching "llm" keeps an incident whose only
    match is its tag "LLM". The filter works element by element, so it
    keeps the order too. *)
Theorem search_filter_keeps_matching (srch : string) (l : list Incident) :
  (forall i, searchKeep srch i = true
     <-> srch = EmptyString
         \/ containsCI srch (title i)
         \/ containsCI srch (description i)
         \/ exists ts tag, tags i = Some ts /\ In tag ts /\ containsCI srch tag)
  /\ (forall i, searchKeep srch i = true
        <-> containsCI srch (title i)
            \/ containsCI srch (description i)
            \/ exists ts tag,
                 tags i = Some ts /\ In tag ts /\ containsCI srch tag)
  /\ (forall i, searchKeep EmptyString i = true)
  /\ (forall i, In i (searchFilter srch l) <-> In i l /\ searchKeep srch i = true)
  /\ Subseq (searchFilter srch l) l
  /\ (forall l1 l2, searchFilter srch (l1 ++ l2)
        = searchFilter srch l1 ++ searchFilter srch l2)
  /\ (forall i, searchFilter srch [i] = if searchKeep srch i then [i] else [])
  /\ searchFilter EmptyString l = l
  /\ (searchKeep "llm" taggedLLM = true
      /\ JS.includes (JS.toLowerCase (title taggedLLM)) (JS.toLowerCase "llm") = false
      /\ JS.includes (JS.toLowerCase (description taggedLLM)) (JS.toLowerCase "llm") = false
      /\ JS.includes "LLM" "llm" = false)
  /\ (searchKeep " " taggedLLM = true
      /\ searchKeep Props.twoSpaces taggedLLM = false).
Proof.
  assert (Hempty : forall i, searchKeep EmptyString i = true).
  { intros i. unfold searchKeep. cbn [JS.toLowerCase].
    now rewrite JSFacts.includes_empty. }
  split.
  { intros i. rewrite searchKeep_iff. split; [tauto |].
    intros [H|H]; [| exact H]. subst srch. left. apply containsCI_empty. }
  split; [intros i; apply searchKeep_iff |].
  split; [exact Hempty |].
  split; [intros i; unfold searchFilter; now rewrite filter_In |].
  split; [apply filter_Subseq |].
  split; [intros l1 l2; apply filter_app |].
  split; [reflexivity |].
  split; [| repeat split; reflexivity].
  unfold searchFilter. induction l as [|x l IH]; simpl; [reflexivity |].
  now rewrite Hempty, IH.
Qed.

(** C10. For an incident without a [tags] field the search predicate is
    still defined, the absent tags match nothing, and the incident is kept
    exactly when the search text occurs, both sides in lower case, in its
    title or in its description. *)
Theorem search_without_tags (srch : string) (i : Incident) :
  tags i = None ->
  searchKeep srch i
  = JS.includes (JS.toLowerCase (title i)) (JS.toLowerCase srch)
    || JS.includes (JS.toLowerCase (description i)) (JS.toLowerCase srch)
  /\ (searchKeep srch i = true
      <-> containsCI srch (title i) \/ containsCI srch (description i))
  /\ (forall l, In i l ->
        (In i (searchFilter srch l)
         <-> containsCI srch (title i) \/ containsCI srch (description i))).
Proof.
  intros Hnone.
  assert (Hb : searchKeep srch i
               = JS.includes (JS.toLowerCase (title i)) (JS.toLowerCase srch)
                 || JS.includes (JS.toLowerCase (description i)) (JS.toLowerCase srch)).
  { unfold searchKeep. rewrite Hnone. apply orb_false_r. }
  assert (Hiff : searchKeep srch i = true
                 <-> containsCI srch (title i) \/ containsCI srch (description i)).
  { now rewrite Hb, orb_true_iff, !includes_containsCI. }
  split; [exact Hb |]. split; [exact Hiff |].
  intros l Hin. unfold searchFilter. rewrite filter_In. tauto.
Qed.

Lemma search_without_tags_witness :
  searchKeep "T" (plain 1 "Low") = true
  /\ searchKeep "llm" (plain 1 "Low") = false.
Proof.
  split.
  - apply (search_without_tags "T" (plain 1 "Low") eq_refl).
    left. now exists EmptyString, EmptyString.
  - rewrite (proj1 (search_without_tags "llm" (plain 1 "Low") eq_refl)).
    reflexivity.
Defined.

End ViewFacts.

(** ** The sorted view *)

Module SortedFacts.
Import App Spec Samples.

Section Host.
Variable Date_parse : string -> JS.number.

Local Abbreviation getTime := (getTime Date_parse).
Local Abbreviation timed := (Spec.timed Date_parse).
Local Abbreviation notAfter := (Spec.notAfter Date_parse).
Local Abbreviation inOrder := (Spec.inOrder Date_parse).
Local Abbreviation reportedAt := (Spec.reportedAt Date_parse).
Local Abbreviation instant := (Spec.instant Date_parse).
Local Abbreviation sortKey := (Spec.sortKey Date_parse).

Lemma timed_instant (i : Incident) : timed i -> getTime i = Some (instant i).
Proof.
  unfold timed, instant. now destruct (getTime i).
Qed.

Lemma compare_byKey (order : string) (a b : Incident) :
  timed a -> timed b ->
  compareReported Date_parse order a b = byKey (sortKey order) a b.
Proof.
  intros Ha Hb. unfold compareReported, byKey, sortKey.
  rewrite (timed_instant a Ha), (timed_instant b Hb).
  destruct (order =? "newest")%string; cbn; f_equal; lia.
Qed.

Lemma sort_byKey (order : string) (l : list Incident) :
  Forall timed l ->
  JSArray.sort (compareReported Date_parse order) l
  = JSArray.sort (byKey (sortKey order)) l.
Proof.
  intros Hl. rewrite Forall_forall in Hl.
  apply SortFacts.sort_ext_in. intros x y Hx Hy.
  unfold JSArray.sortCompare. now rewrite compare_byKey by auto.
Qed.

Lemma keyLe_inOrder (order : string) (a b : Incident) :
  timed a -> timed b ->
  (keyLe (sortKey order) a b <-> inOrder order a b).
Proof.
  intros Ha Hb. unfold keyLe, sortKey, inOrder, notAfter.
  rewrite (timed_instant a Ha), (timed_instant b Hb).
  destruct (order =? "newest")%string; split.
  - intros H. exists (instant b), (instant a). repeat split. lia.
  - intros [tb [ta [Eb [Ea H]]]]. injection Ea as <-. injection Eb as <-. lia.
  - intros H. exists (instant a), (instant b). now repeat split.
  - intros [ta [tb [Ea [Eb H]]]]. injection Ea as <-. injection Eb as <-. lia.
Qed.

Lemma hasKey_reportedAt (order : string) (t : Z) (i : Incident) :
  timed i ->
  reportedAt t i
  = hasKey (sortKey order)
      (if (order =? "newest")%string then - t else t) i.
Proof.
  intros Hi. unfold reportedAt, hasKey, sortKey.
  rewrite (timed_instant i Hi).
  destruct (order =? "newest")%string; [| reflexivity].
  destruct (Z.eqb_spec (instant i) t), (Z.eqb_spec (- instant i) (- t));
    try reflexivity; lia.
Qed.

Lemma filter_reportedAt (order : string) (t : Z) (l : list Incident) :
  Forall timed l ->
  List.filter (reportedAt t) l
  = List.filter (hasKey (sortKey order)
                   (if (order =? "newest")%string then - t else t)) l.
Proof.
  intros Hl. rewrite Forall_forall in Hl.
  apply filter_ext_in. intros i Hi. now apply hasKey_reportedAt, Hl.
Qed.

Lemma filter_hasKey (order : string) (k : Z) (l : list Incident) :
  Forall timed l ->
  List.filter (hasKey (sortKey order) k) l
  = List.filter (reportedAt (if (order =? "newest")%string then - k else k)) l.
Proof.
  intros Hl. rewrite (filter_reportedAt order) by assumption.
  destruct (order =? "newest")%string; [| reflexivity].
  now rewrite Z.opp_involutive.
Qed.

Lemma filtered_timed (st : State) :
  Forall timed (incidents st) -> Forall timed (filtered st).
Proof.
  rewrite !Forall_forall. intros H i Hi. apply H.
  unfold filtered, searchFilter, severityFilter in Hi.
  now apply filter_In in Hi as [Hi%filter_In _].
Qed.

Section Sorted.
Variable st : State.
Hypothesis Htimed : Forall timed (incidents st).

Let order := sortOrder st.
Let view := sorted Date_parse st.

Lemma view_byKey :
  view = JSArray.sort (byKey (sortKey order)) (filtered st).
Proof. apply sort_byKey, filtered_timed, Htimed. Qed.

Lemma view_perm : Permutation view (filtered st).
Proof. apply SortFacts.sort_perm. Qed.

Lemma view_timed : Forall timed view.
Proof.
  apply (Permutation_Forall (Permutation_sym view_perm)).
  apply filtered_timed, Htimed.
Qed.

Lemma view_inOrder : StronglySorted (inOrder order) view.
Proof.
  pose proof view_timed as Ht. rewrite Forall_forall in Ht.
  apply (SortFacts.StronglySorted_impl_in
           (keyLe (sortKey order))).
  - intros x y Hx Hy. now apply keyLe_inOrder; apply Ht.
  - rewrite view_byKey. apply SortFacts.sort_sorted.
Qed.

Lemma view_stable (t : Z) :
  List.filter (reportedAt t) view = List.filter (reportedAt t) (filtered st).
Proof.
  rewrite (filter_reportedAt order t view view_timed).
  rewrite (filter_reportedAt order t (filtered st))
    by apply filtered_timed, Htimed.
  rewrite view_byKey. apply SortFacts.sort_stable.
Qed.

(** Any arrangement of the filtered incidents that is in order and
    keeps incidents reported at the same instant in their prior order
    is the view. *)
Lemma view_unique (out : list Incident) :
  Permutation out (filtered st) ->
  StronglySorted (inOrder order) out ->
  (forall t, List.filter (reportedAt t) out
             = List.filter (reportedAt t) (filtered st)) ->
  out = view.
Proof.
  intros Hp Hs Hf.
  assert (Hout : Forall timed out).
  { apply (Permutation_Forall (Permutation_sym Hp)).
    apply filtered_timed, Htimed. }
  rewrite view_byKey. apply SortFacts.sort_unique.
  - pose proof Hout as Ht. rewrite Forall_forall in Ht.
    apply (SortFacts.StronglySorted_impl_in (inOrder order)); [| exact Hs].
    intros x y Hx Hy. now apply keyLe_inOrder; apply Ht.
  - intros k. rewrite (filter_hasKey order k out Hout).
    rewrite (filter_hasKey order k (filtered st))
      by apply filtered_timed, Htimed.
    apply Hf.
Qed.
End Sorted.
End Host.

Section Reach.
Variable Date_parse : string -> JS.number.

Local Abbreviation timed := (Spec.timed Date_parse).

Local Abbreviation readable := (Spec.readable Date_parse).

Lemma flip_timed (target : Z) (i : Incident) :
  timed i -> timed (flipIfMatches target i).
Proof.
  unfold flipIfMatches. now destruct (id i =? target).
Qed.

Lemma step_timed (st : State) (e : Event) :
  readable e -> Forall timed (incidents st) ->
  Forall timed (incidents (step st e)).
Proof.
  intros He Hst.
  destruct e as [now today|target| | | | | | | |]; cbn [step]; try exact Hst.
  - unfold handleAddIncident.
    destruct (refused (newIncident st)); [exact Hst |].
    cbn [incidents setNewIncident setIncidents].
    constructor; [| exact Hst].
    unfold Spec.timed, getTime. cbn [reported_at]. exact He.
  - rewrite ToggleFacts.toggle_incidents. apply Forall_map.
    eapply Forall_impl; [| exact Hst]. intros i. apply flip_timed.
Qed.

(** Report times stay instants along a run. *)
Lemma run_timed (evs : list Event) (st : State) :
  Forall readable evs -> Forall timed (incidents st) ->
  Forall timed (incidents (run evs st)).
Proof.
  revert st; induction evs as [|e evs IH]; intros st He Hst; [exact Hst |].
  inversion He; subst. cbn [run fold_left].
  apply IH; [assumption |]. now apply step_timed.
Qed.
End Reach.

Lemma initial_timed : Forall (timed Date.iso_parse) initialIncidents.
Proof. repeat constructor; discriminate. Qed.

Lemma run_timed_iso (evs : list Event) :
  Forall clockInRange evs ->
  Forall (timed Date.iso_parse) (incidents (run evs initialState)).
Proof.
  intros H. apply run_timed; [| exact initial_timed].
  eapply Forall_impl; [| exact H].
  intros e He. destruct e; try exact I.
  unfold readable, clockInRange in *.
  rewrite DateFacts.iso_parse_toISOString by assumption. discriminate.
Qed.

(** C5. The rendered list is the sort of the search filter of the severity
    filter of the store: the sort comes last and sees the filtered
    incidents only. Whenever the report times of the store are instants
    for the host's date parser, the rendered list is a rearrangement of the
    filtered incidents ordered by those instants, latest first when the
    sort order is "newest" and earliest first otherwise, in which incidents
    reported at the same instant keep their prior relative order; it is the
    only such arrangement. Dates 2025-03-15, 2025-04-01, 2025-03-20 come
    out as 04-01, 03-20, 03-15 under "newest" and as 03-15, 03-20, 04-01
    under "oldest"; a report time written with milliseconds sorts by its
    instant, after an earlier one written without, though its text is the
    smaller string. With a parser of the ISO format, the report times of
    every store a run reaches from the seed data are instants, as long as
    the clock stays in the years 0000 to 9999. *)
Theorem rendered_is_sort_of_filtered :
  (forall (Date_parse : string -> JS.number) (st : State),
     Forall (timed Date_parse) (incidents st) ->
     let view := sorted Date_parse st in
     view = JSArray.sort (compareReported Date_parse (sortOrder st))
              (searchFilter (search st)
                 (severityFilter (filter st) (incidents st)))
     /\ Permutation view (filtered st)
     /\ (sortOrder st = "newest" ->
         StronglySorted (fun a b => notAfter Date_parse b a) view)
     /\ (sortOrder st <> "newest" ->
         StronglySorted (fun a b => notAfter Date_parse a b) view)
     /\ (forall t, List.filter (reportedAt Date_parse t) view
                   = List.filter (reportedAt Date_parse t) (filtered st))
     /\ (forall out,
           Permutation out (filtered st) ->
           StronglySorted (inOrder Date_parse (sortOrder st)) out ->
           (forall t, List.filter (reportedAt Date_parse t) out
                      = List.filter (reportedAt Date_parse t) (filtered st)) ->
           out = view))
  /\ map reported_at (sorted Date.iso_parse (threeDates "newest"))
       = ["2025-04-01"; "2025-03-20"; "2025-03-15"]
  /\ map reported_at (sorted Date.iso_parse (threeDates "oldest"))
       = ["2025-03-15"; "2025-03-20"; "2025-04-01"]
  /\ map id (sorted Date.iso_parse (tiedDates "newest")) = [2; 1; 3]
  /\ map id (sorted Date.iso_parse (tiedDates "oldest")) = [1; 3; 2]
  /\ map id (sorted Date.iso_parse initialState) = [2; 3; 1]
  /\ (map id (sorted Date.iso_parse mixedFormats) = [2; 1]
      /\ ("2025-03-15T10:00:00.500Z" <? "2025-03-15T10:00:00Z")%string = true)
  /\ (forall evs, Forall clockInRange evs ->
        Forall (timed Date.iso_parse) (incidents (run evs initialState))).
Proof.
  split; [| repeat split; try reflexivity; apply run_timed_iso].
  intros Date_parse st Htimed view. subst view.
  split; [reflexivity |].
  split; [apply view_perm |].
  pose proof (view_inOrder Date_parse st Htimed) as Hs.
  unfold inOrder in Hs.
  split; [| split; [| split]].
  - intros Hnew. rewrite Hnew in Hs. exact Hs.
  - intros Hold. apply String.eqb_neq in Hold. rewrite Hold in Hs. exact Hs.
  - apply view_stable, Htimed.
  - intros out. apply view_unique, Htimed.
Qed.

Lemma rendered_is_sort_of_filtered_witness :
  Permutation (sorted Date.iso_parse initialState) initialIncidents
  /\ StronglySorted (fun a b => notAfter Date.iso_parse b a)
       (sorted Date.iso_parse initialState).
Proof.
  assert (Ht : Forall (timed Date.iso_parse) (incidents initialState)).
  { repeat constructor; discriminate. }
  destruct (proj1 rendered_is_sort_of_filtered Date.iso_parse initialState Ht)
    as [_ [Hp [Hs _]]].
  split; [exact Hp | exact (Hs eq_refl)].
Defined.

End SortedFacts.

(** ** Ids along a run *)

Module IdFacts.
Import App Spec Samples.

Lemma ids_toggle (target : Z) (st : State) :
  ids (toggleAcknowledge target st) = ids st.
Proof.
  unfold ids. rewrite ToggleFacts.toggle_incidents, map_map.
  apply map_ext. intros i. apply ToggleFacts.flip_id.
Qed.

(** A submission either leaves the ids alone or puts the clock reading in
    front of them. *)
Lemma ids_add (now today : Z) (st : State) :
  ids (handleAddIncident now today st) = ids st
  \/ ids (handleAddIncident now today st) = now :: ids st.
Proof.
  unfold handleAddIncident.
  destruct (refused (newIncident st)); [now left | now right].
Qed.

(** No handler removes or changes a stored id. *)
Lemma ids_step (st : State) (e : Event) :
  exists fresh, ids (step st e) = fresh ++ ids st.
Proof.
  destruct e as [now today|target| | | | | | | |]; cbn [step];
    try (now exists []).
  - destruct (ids_add now today st) as [H|H]; rewrite H;
      [now exists [] | now exists [now]].
  - rewrite ids_toggle. now exists [].
Qed.

Lemma run_app (evs1 evs2 : list Event) (st : State) :
  run (evs1 ++ evs2) st = run evs2 (run evs1 st).
Proof. apply fold_left_app. Qed.

Lemma ids_run (evs : list Event) (st : State) :
  exists fresh, ids (run evs st) = fresh ++ ids st.
Proof.
  revert st; induction evs as [|e evs IH]; intros st; [now exists [] |].
  cbn [run fold_left]. destruct (IH (step st e)) as [f1 H1].
  destruct (ids_step st e) as [f2 H2].
  exists (f1 ++ f2). unfold run in H1. now rewrite H1, H2, app_assoc.
Qed.

Lemma distinctBelow_le (a b : Z) (st : State) :
  a <= b -> distinctBelow a st -> distinctBelow b st.
Proof.
  intros Hab [Hn Hf]. split; [assumption |].
  eapply Forall_impl; [| exact Hf]. intros; cbn in *; lia.
Qed.

Lemma distinctBelow_add (last now today : Z) (st : State) :
  last < now -> distinctBelow last st ->
  distinctBelow now (handleAddIncident now today st).
Proof.
  intros Hlt Hd. destruct (ids_add now today st) as [H|H].
  - destruct (distinctBelow_le last now st) as [Hn Hf]; [lia | assumption |].
    unfold distinctBelow. now rewrite H.
  - destruct Hd as [Hn Hf]. unfold distinctBelow. rewrite H. split.
    + constructor; [| assumption].
      intros Hin. rewrite Forall_forall in Hf. specialize (Hf now Hin). lia.
    + constructor; [lia |].
      eapply Forall_impl; [| exact Hf]. intros; cbn in *; lia.
Qed.

Lemma refused_noop (now today : Z) (st : State) :
  refused (newIncident st) = true -> handleAddIncident now today st = st.
Proof. unfold handleAddIncident. now intros ->. Qed.

Lemma distinctBelow_run (evs : list Event) (last : Z) (st : State) :
  clockIncreasing last evs st -> distinctBelow last st ->
  exists last', distinctBelow last' (run evs st).
Proof.
  revert last st; induction evs as [|e evs IH]; intros last st Hc Hd.
  - now exists last.
  - cbn [run fold_left].
    destruct e as [now today|target| | | | | | | |]; cbn [clockIncreasing] in Hc;
      try (apply (IH last); [exact Hc | exact Hd]).
    + destruct (refused (newIncident st)) eqn:Hr.
      * apply (IH last); [exact Hc |].
        cbn [step]. now rewrite refused_noop.
      * destruct Hc as [Hlt Hc]. apply (IH now); [exact Hc |].
        cbn [step]. now apply (distinctBelow_add last).
    + apply (IH last); [exact Hc |]. cbn [step].
      unfold distinctBelow. now rewrite ids_toggle.
Qed.

Lemma initial_distinctBelow : distinctBelow 3 initialState.
Proof.
  split; cbn.
  - repeat constructor; cbn; intuition discriminate.
  - repeat constructor; discriminate.
Qed.

(** C8, as stated, fails: the id is the clock reading, so two submissions
    in the same millisecond leave two different incidents with one id. *)
Lemma ids_not_always_distinct :
  ~ (forall evs, NoDup (ids (run evs initialState)))
  /\ (exists a b,
        nth_error (incidents (run sameMillisecond initialState)) 0 = Some a
        /\ nth_error (incidents (run sameMillisecond initialState)) 1 = Some b
        /\ id a = id b /\ title a <> title b).
Proof.
  split.
  - intros H. specialize (H sameMillisecond). vm_compute in H.
    inversion H as [|? ? Hnotin _]. apply Hnotin. now left.
  - vm_compute. do 2 eexists. repeat split; try reflexivity. discriminate.
Qed.

(** C8, amended. Along every run from the seed data in which each
    [Date.now()] reading taken by a submission is above 3 and above the
    readings taken before it, the ids in the store are pairwise distinct;
    and the ids stored at any moment of the run are still there, unchanged
    and in place, at the end of it, behind the ids that came in since,
    which all differ from them: no id is used a second time. *)
Theorem ids_distinct_when_clock_increases (evs : list Event) :
  clockIncreasing 3 evs initialState ->
  NoDup (ids (run evs initialState))
  /\ (forall evs1 evs2, evs = evs1 ++ evs2 ->
        exists fresh,
          ids (run evs initialState) = fresh ++ ids (run evs1 initialState)
          /\ forall i, In i fresh -> ~ In i (ids (run evs1 initialState))).
Proof.
  intros Hc.
  destruct (distinctBelow_run evs 3 initialState Hc initial_distinctBelow)
    as [last [Hn _]].
  split; [exact Hn |].
  intros evs1 evs2 ->. rewrite run_app in *.
  destruct (ids_run evs2 (run evs1 initialState)) as [fresh Hf].
  exists fresh. split; [exact Hf |].
  rewrite Hf in Hn. intros i Hi Hin.
  revert Hn Hi Hin. clear. generalize (ids (run evs1 initialState)) as old.
  induction fresh as [|x fresh IH]; intros old Hn Hi Hin; [contradiction |].
  cbn in Hn. inversion Hn as [|? ? Hx Hn']; subst.
  destruct Hi as [->|Hi].
  - apply Hx, in_or_app. now right.
  - now apply (IH old).
Qed.

Lemma ids_distinct_when_clock_increases_witness :
  NoDup (ids (run nextMillisecond initialState))
  /\ ids (run nextMillisecond initialState)
     = [1746093600001; 1746093600000; 1; 2; 3].
Proof.
  split; [| reflexivity].
  apply (ids_distinct_when_clock_increases nextMillisecond).
  repeat split.
Defined.

End IdFacts.

(** ** The detail panel *)

Module ExpandFacts.
Import App Spec Samples.

Lemma isExpanded_iff (st : State) (i : Z) :
  isExpanded st i = true <-> expanded st = Some i.
Proof.
  unfold isExpanded. destruct (expanded st) as [e|].
  - rewrite Z.eqb_eq. split; [now intros -> | now intros [= ->]].
  - split; discriminate.
Qed.

(** With distinct ids in the store, at most one position of it shows its
    details. *)
Lemma one_position_expanded (st : State) (j k : nat) (a b : Incident) :
  NoDup (ids st) ->
  nth_error (incidents st) j = Some a ->
  nth_error (incidents st) k = Some b ->
  isExpanded st (id a) = true -> isExpanded st (id b) = true ->
  j = k.
Proof.
  intros Hn Ha Hb Ea Eb. apply isExpanded_iff in Ea, Eb.
  assert (Hid : id a = id b) by congruence.
  unfold ids in Hn.
  apply (proj1 (NoDup_nth_error (map id (incidents st))) Hn).
  - rewrite length_map. apply nth_error_Some. congruence.
  - rewrite !nth_error_map, Ha, Hb. cbn. now rewrite Hid.
Qed.

(** C9, as stated, fails in its last part: the panel state names an id,
    and after two submissions in the same millisecond two different
    incidents carry that id, so one click shows the details of both. *)
Lemma two_incidents_expanded :
  exists a b,
    nth_error (incidents (run twoPanels initialState)) 0 = Some a
    /\ nth_error (incidents (run twoPanels initialState)) 1 = Some b
    /\ title a <> title b
    /\ isExpanded (run twoPanels initialState) (id a) = true
    /\ isExpanded (run twoPanels initialState) (id b) = true.
Proof.
  vm_compute. do 2 eexists. repeat split; try reflexivity. discriminate.
Qed.

(** C9, amended. The panel state is either nothing or one id. Clicking
    "View Details" of incident [x] when nothing, or another incident [y],
    is expanded expands [x]; clicking it when [x] is expanded collapses it;
    no click touches anything but the panel state. So in every state a run
    can reach (in every state at all) at most one id is expanded, and at
    most one incident of the store whenever the ids in the store are
    pairwise distinct. From nothing, a click on 3 expands 3, a second click
    on 3 collapses it, and a click on 3 then on 5 leaves 5 expanded and 3
    not. *)
Theorem expansion_state_machine :
  (forall st x, expanded st = None ->
     expanded (onViewDetails x st) = Some x)
  /\ (forall st x y, expanded st = Some y -> y <> x ->
        expanded (onViewDetails x st) = Some x)
  /\ (forall st x, expanded st = Some x ->
        expanded (onViewDetails x st) = None)
  /\ (forall st x, onViewDetails x st = setExpanded (expanded (onViewDetails x st)) st)
  /\ (forall evs x y,
        isExpanded (run evs initialState) x = true ->
        isExpanded (run evs initialState) y = true -> x = y)
  /\ (forall evs j k a b,
        NoDup (ids (run evs initialState)) ->
        nth_error (incidents (run evs initialState)) j = Some a ->
        nth_error (incidents (run evs initialState)) k = Some b ->
        isExpanded (run evs initialState) (id a) = true ->
        isExpanded (run evs initialState) (id b) = true ->
        j = k)
  /\ expanded initialState = None
  /\ expanded (run [ViewDetails 3] initialState) = Some 3
  /\ expanded (run [ViewDetails 3; ViewDetails 3] initialState) = None
  /\ expanded (run [ViewDetails 3; ViewDetails 5] initialState) = Some 5
  /\ isExpanded (run [ViewDetails 3; ViewDetails 5] initialState) 3 = false.
Proof.
  split; [intros st x H; cbn; now rewrite H |].
  split.
  { intros st x y H Hne. cbn. rewrite H.
    apply Z.eqb_neq in Hne. now rewrite Hne. }
  split; [intros st x H; cbn; now rewrite H, Z.eqb_refl |].
  split; [reflexivity |].
  split.
  { intros evs x y Hx Hy. apply isExpanded_iff in Hx, Hy. congruence. }
  split; [| repeat split; reflexivity].
  intros evs j k a b. apply one_position_expanded.
Qed.

Lemma expansion_state_machine_witness :
  expanded (onViewDetails 5 (run [ViewDetails 3] initialState)) = Some 5
  /\ expanded (onViewDetails 3 (run [ViewDetails 3] initialState)) = None
  /\ expanded (onViewDetails 3 initialState) = Some 3.
Proof.
  destruct expansion_state_machine as [H1 [H2 [H3 _]]].
  split; [apply (H2 _ 5 3); [reflexivity | discriminate] |].
  split; [apply H3 | apply H1]; reflexivity.
Defined.

End ExpandFacts.

(** ** More facts about the string built-ins *)

Module TagFacts.
Import App Spec Props Samples.

Lemma trimStart_fixed (s : string) :
  (forall c r, s = String c r -> JS.isWhiteSpace c = false) ->
  JS.trimStart s = s.
Proof.
  destruct s as [|c s]; [reflexivity |]. intros H. simpl.
  now rewrite (H c s eq_refl).
Qed.

Lemma trimEnd_idem (s : string) : JS.trimEnd (JS.trimEnd s) = JS.trimEnd s.
Proof.
  induction s as [|c s IH]; [reflexivity |]. simpl.
  destruct (JS.trimEnd s) as [|b r] eqn:Hr.
  - destruct (JS.isWhiteSpace c) eqn:Hc; [reflexivity |].
    simpl. now rewrite Hc.
  - change (JS.trimEnd (String c (String b r)))
      with (match JS.trimEnd (String b r) with
            | EmptyString =>
                if JS.isWhiteSpace c then EmptyString else String c EmptyString
            | t => String c t
            end).
    now rewrite IH.
Qed.

(** Trimming twice is trimming once. *)
Lemma trim_idem (s : string) : JS.trim (JS.trim s) = JS.trim s.
Proof.
  unfold JS.trim at 1.
  rewrite (trimStart_fixed (JS.trim s)) by (intros c r; apply JSFacts.trim_head).
  apply trimEnd_idem.
Qed.

Lemma occurs_app (c : ascii) (a b : string) :
  occurs c (a ++ b) = occurs c a || occurs c b.
Proof.
  induction a as [|x a IH]; simpl; [reflexivity |].
  now rewrite IH, orb_assoc.
Qed.

Lemma occurs_trim (c : ascii) (s : string) :
  occurs c s = false -> occurs c (JS.trim s) = false.
Proof.
  destruct (JSFacts.trim_decompose s) as [pre [post [H _]]].
  intros Hs. rewrite H, !occurs_app in Hs.
  apply orb_false_iff in Hs as [_ Hs]. now apply orb_false_iff in Hs as [Hs _].
Qed.

Lemma parseTags_cleanTag (raw : string) : Forall cleanTag (parseTags raw).
Proof.
  apply Forall_forall. intros tag Hin.
  unfold parseTags in Hin. apply filter_In in Hin as [Hin Ht].
  apply in_map_iff in Hin as [piece [<- Hp]].
  split; [now apply JSFacts.truthy_iff |]. split; [| apply trim_idem].
  apply occurs_trim.
  pose proof (JSFacts.split_no_sep "," raw) as Hs.
  rewrite Forall_forall in Hs. now apply Hs.
Qed.

(** A string without the separator is one piece. *)
Lemma split_one (sep : ascii) (s : string) :
  occurs sep s = false -> JS.split sep s = [s].
Proof.
  induction s as [|c s IH]; [reflexivity |]. simpl.
  intros H. apply orb_false_iff in H as [Hc Hs].
  now rewrite Hc, (IH Hs).
Qed.

Lemma split_app_sep (sep : ascii) (p s : string) :
  occurs sep p = false ->
  JS.split sep (p ++ String sep s) = p :: JS.split sep s.
Proof.
  induction p as [|c p IH]; simpl.
  - intros _. now rewrite Ascii.eqb_refl.
  - intros H. apply orb_false_iff in H as [Hc Hp].
    now rewrite Hc, (IH Hp).
Qed.

(** Splitting what was joined gives the pieces back, when there is a piece
    and no piece holds the separator. *)
Lemma split_join (sep : ascii) (pieces : list string) :
  pieces <> [] ->
  Forall (fun p => occurs sep p = false) pieces ->
  JS.split sep (JS.join sep pieces) = pieces.
Proof.
  induction pieces as [|p rest IH]; [congruence |].
  intros _ H. inversion H as [|? ? Hp Hrest]; subst.
  destruct rest as [|q rest].
  - now apply split_one.
  - change (JS.join sep (p :: q :: rest))
      with (p ++ String sep (JS.join sep (q :: rest)))%string.
    rewrite split_app_sep by assumption.
    now rewrite IH.
Qed.

Lemma map_trim_clean (ts : list string) :
  Forall cleanTag ts -> map JS.trim ts = ts.
Proof.
  induction 1 as [|t ts [_ [_ Ht]] _ IH]; simpl; [reflexivity |].
  now rewrite Ht, IH.
Qed.

Lemma filter_truthy_clean (ts : list string) :
  Forall cleanTag ts -> List.filter JS.truthy ts = ts.
Proof.
  induction 1 as [|t ts [Hne _] _ IH]; simpl; [reflexivity |].
  apply JSFacts.truthy_iff in Hne. now rewrite Hne, IH.
Qed.

Lemma parseTags_join (ts : list string) :
  Forall cleanTag ts -> parseTags (JS.join "," ts) = ts.
Proof.
  intros H. unfold parseTags. destruct ts as [|t ts]; [reflexivity |].
  rewrite split_join.
  - now rewrite map_trim_clean, filter_truthy_clean.
  - discriminate.
  - eapply Forall_impl; [| exact H]. now intros a [_ [Ha _]].
Qed.

(** Tags written out with commas between them and parsed again are the
    same tags. *)
Lemma parseTags_round_trip (raw : string) :
  parseTags (JS.join "," (parseTags raw)) = parseTags raw
  /\ (forall ts, Forall cleanTag ts -> parseTags (JS.join "," ts) = ts)
  /\ Forall cleanTag (parseTags raw).
Proof.
  split; [apply parseTags_join, parseTags_cleanTag |].
  split; [apply parseTags_join | apply parseTags_cleanTag].
Qed.

Lemma pieces_blank (s : string) :
  forallb allWhiteSpace (JS.split "," s) = onlySeparators s.
Proof.
  induction s as [|c s IH]; [reflexivity |]. simpl.
  destruct (Ascii.eqb c ",") eqn:Hc; simpl.
  - exact IH.
  - rewrite <- IH.
    destruct (JS.split "," s) as [|p rest] eqn:Hs;
      [now destruct (JSFacts.split_nonempty "," s) |].
    simpl. now rewrite andb_assoc.
Qed.

Lemma no_tag_blank_pieces (pieces : list string) :
  List.filter JS.truthy (map JS.trim pieces) = []
  <-> forallb allWhiteSpace pieces = true.
Proof.
  induction pieces as [|x l IH]; simpl; [tauto |].
  destruct (allWhiteSpace x) eqn:Hx.
  - apply JSFacts.trim_blank in Hx. rewrite Hx. exact IH.
  - destruct (JS.truthy (JS.trim x)) eqn:Ht.
    + split; discriminate.
    + apply JSFacts.trim_blank in Ht. congruence.
Qed.

(** No tag comes out exactly when the raw text is commas and white space
    only. *)
Lemma parseTags_nil (raw : string) :
  parseTags raw = [] <-> onlySeparators raw = true.
Proof.
  unfold parseTags. now rewrite no_tag_blank_pieces, pieces_blank.
Qed.

End TagFacts.

(** ** What every run keeps *)

Module RunFacts.
Import App Spec Props Samples.

(** A property of states that every handled event keeps holds after any
    run. *)
Lemma run_invariant (Inv : State -> Prop) (ok : Event -> Prop) :
  (forall st e, ok e -> Inv st -> Inv (step st e)) ->
  forall evs st, Forall ok evs -> Inv st -> Inv (run evs st).
Proof.
  intros Hstep evs. induction evs as [|e evs IH]; intros st Hok Hst.
  - exact Hst.
  - inversion Hok; subst. cbn [run fold_left]. apply IH; auto.
Qed.

Lemma refused_false (d : Draft.t) :
  refused d = false ->
  JS.trim (Draft.title d) <> EmptyString
  /\ JS.trim (Draft.description d) <> EmptyString.
Proof.
  unfold refused. intros H. apply orb_false_iff in H as [Ht Hd].
  apply negb_false_iff in Ht, Hd.
  split; now apply JSFacts.truthy_iff.
Qed.

(** A property of incidents that does not look at the flag and holds of
    whatever an accepted submission builds holds throughout the store
    after a step. *)
Lemma step_Forall (P : Incident -> Prop) (st : State) (e : Event) :
  (forall t i, P i -> P (flipIfMatches t i)) ->
  (forall now today,
     refused (newIncident st) = false ->
     P (mkIncident now (Draft.title (newIncident st))
          (Draft.description (newIncident st))
          (Draft.severity (newIncident st))
          (Date.toISOString today) false
          (Some (parseTags (Draft.tags (newIncident st)))))) ->
  Forall P (incidents st) -> Forall P (incidents (step st e)).
Proof.
  intros Hflip Hnew Hst.
  destruct e as [now today|target| | | | | | | |]; cbn [step]; try exact Hst.
  - unfold handleAddIncident.
    destruct (refused (newIncident st)) eqn:Hr; [exact Hst |].
    cbn [incidents setNewIncident setIncidents].
    constructor; [now apply Hnew | exact Hst].
  - rewrite ToggleFacts.toggle_incidents. apply Forall_map.
    eapply Forall_impl; [| exact Hst]. intros i. apply Hflip.
Qed.

Lemma flip_fields (t : Z) (i : Incident) :
  sameButFlag i (flipIfMatches t i).
Proof.
  unfold flipIfMatches, sameButFlag.
  destruct (id i =? t); cbn; repeat split; reflexivity.
Qed.

Lemma initial_admitted : Forall admitted initialIncidents.
Proof. repeat constructor; discriminate. Qed.

Lemma initial_cleanTags : Forall cleanTags initialIncidents.
Proof.
  repeat constructor; eexists; (split; [reflexivity |]);
    repeat constructor; discriminate.
Qed.

(** X1. In every store a run reaches from the seed data, every incident
    has a title and a description that are not blank after trimming: the
    guard of line 73 lets no other in, and nothing rewrites them. *)
Theorem stored_incidents_admitted (evs : list Event) :
  Forall admitted (incidents (run evs initialState)).
Proof.
  apply (run_invariant (fun st => Forall admitted (incidents st))
           (fun _ => True)).
  - intros st e _ Hst. apply step_Forall; [| | exact Hst].
    + intros t i. unfold admitted.
      destruct (flip_fields t i) as [_ [Ht [Hd _]]]. now rewrite <- Ht, <- Hd.
    + intros now today Hr. now apply refused_false.
  - apply Forall_forall. intros; exact I.
  - exact initial_admitted.
Qed.

(** X2. In every store a run reaches from the seed data, every incident
    has a tag list, and each tag in it is not empty, holds no comma and has
    no white space at either end. *)
Theorem stored_tags_clean (evs : list Event) :
  Forall cleanTags (incidents (run evs initialState)).
Proof.
  apply (run_invariant (fun st => Forall cleanTags (incidents st))
           (fun _ => True)).
  - intros st e _ Hst. apply step_Forall; [| | exact Hst].
    + intros t i [ts [Hts Hc]]. exists ts. split; [| exact Hc].
      destruct (flip_fields t i) as [_ [_ [_ [_ [_ Ht]]]]]. now rewrite <- Ht.
    + intros now today _. eexists. split; [reflexivity |].
      apply TagFacts.parseTags_cleanTag.
  - apply Forall_forall. intros; exact I.
  - exact initial_cleanTags.
Qed.

(** X3. When every pick in the form's severity select is one of its three
    options, the draft's severity and the severity of every stored
    incident is "Low", "Medium" or "High" after any run from the seed
    data. *)
Theorem severities_stay_in_range (evs : list Event) :
  Forall picksOption evs ->
  isSeverity (Draft.severity (newIncident (run evs initialState)))
  /\ Forall (fun i => isSeverity (severity i))
       (incidents (run evs initialState)).
Proof.
  intros Hok.
  apply (run_invariant
           (fun st => isSeverity (Draft.severity (newIncident st))
                      /\ Forall (fun i => isSeverity (severity i)) (incidents st))
           picksOption); [| exact Hok |].
  - intros st e He [Hd Hst]. split.
    + destruct e as [now today|target| | | | | | | |]; cbn [step];
        try exact Hd; try exact He.
      unfold handleAddIncident.
      destruct (refused (newIncident st)); [exact Hd | now left].
    + apply step_Forall; [| | exact Hst].
      * intros t i. destruct (flip_fields t i) as [_ [_ [_ [Hs _]]]].
        now rewrite <- Hs.
      * intros now today _. exact Hd.
  - split; [now left |].
    repeat (apply Forall_cons || apply Forall_nil); unfold isSeverity; cbn; auto.
Qed.

Lemma severities_stay_in_range_witness :
  Forall (fun i => isSeverity (severity i))
    (incidents (run [PickSeverity "High"; TypeTitle "T"; TypeDescription "D";
                     Submit 1746093600000 1746093600000] initialState)).
Proof.
  apply (severities_stay_in_range
           [PickSeverity "High"; TypeTitle "T"; TypeDescription "D";
            Submit 1746093600000 1746093600000]).
  repeat (apply Forall_cons || apply Forall_nil); try exact I.
  unfold picksOption, isSeverity. auto.
Defined.

Lemma sameButFlag_refl (a : Incident) : sameButFlag a a.
Proof. unfold sameButFlag. repeat split; reflexivity. Qed.

Lemma sameButFlag_trans (a b c : Incident) :
  sameButFlag a b -> sameButFlag b c -> sameButFlag a c.
Proof.
  unfold sameButFlag.
  intros [H1 [H2 [H3 [H4 [H5 H6]]]]] [K1 [K2 [K3 [K4 [K5 K6]]]]].
  repeat split; congruence.
Qed.

Lemma Forall2_refl {A : Type} (R : A -> A -> Prop) (l : list A) :
  (forall a, R a a) -> Forall2 R l l.
Proof. intros H. induction l; constructor; auto. Qed.

Lemma Forall2_trans {A : Type} (R : A -> A -> Prop) (l1 l2 l3 : list A) :
  (forall a b c, R a b -> R b c -> R a c) ->
  Forall2 R l1 l2 -> Forall2 R l2 l3 -> Forall2 R l1 l3.
Proof.
  intros Ht H12. revert l3. induction H12 as [|a b l1 l2 Hab _ IH]; intros l3 H23.
  - inversion H23. constructor.
  - inversion H23; subst. constructor; eauto.
Qed.

Lemma step_keeps_incidents (st : State) (e : Event) :
  exists fresh kept,
    incidents (step st e) = fresh ++ kept
    /\ Forall2 sameButFlag (incidents st) kept.
Proof.
  destruct e as [now today|target| | | | | | | |]; cbn [step];
    try (exists [], (incidents st); split;
         [reflexivity | apply Forall2_refl, sameButFlag_refl]).
  - unfold handleAddIncident. destruct (refused (newIncident st)).
    + exists [], (incidents st). split;
        [reflexivity | apply Forall2_refl, sameButFlag_refl].
    + eexists [_], (incidents st). split;
        [reflexivity | apply Forall2_refl, sameButFlag_refl].
  - exists [], (map (flipIfMatches target) (incidents st)). split.
    + apply ToggleFacts.toggle_incidents.
    + induction (incidents st) as [|i l IH]; constructor;
        [apply flip_fields | exact IH].
Qed.

(** X4. Nothing is ever deleted or rewritten: after any run from any
    state, the store is some newer incidents followed by the incidents it
    held before, as many and in the same order, each with the id, title,
    description, severity, report time and tags it had; only the
    acknowledged flag of a stored incident can differ. *)
Theorem store_only_grows (evs : list Event) (st : State) :
  exists fresh kept,
    incidents (run evs st) = fresh ++ kept
    /\ Forall2 sameButFlag (incidents st) kept
    /\ length kept = length (incidents st)
    /\ (length (incidents st) <= length (incidents (run evs st)))%nat.
Proof.
  assert (H : exists fresh kept,
             incidents (run evs st) = fresh ++ kept
             /\ Forall2 sameButFlag (incidents st) kept).
  { revert st. induction evs as [|e evs IH]; intros st.
    - exists [], (incidents st). split;
        [reflexivity | apply Forall2_refl, sameButFlag_refl].
    - cbn [run fold_left].
      destruct (IH (step st e)) as [f1 [k1 [E1 S1]]].
      destruct (step_keeps_incidents st e) as [f2 [k2 [E2 S2]]].
      rewrite E2 in S1.
      apply Forall2_app_inv_l in S1 as [k1a [k1b [Sa [Sb Ek]]]].
      exists (f1 ++ k1a), k1b. split.
      + unfold run in E1. now rewrite E1, Ek, app_assoc.
      + apply (Forall2_trans _ _ k2); [apply sameButFlag_trans | | ]; assumption. }
  destruct H as [fresh [kept [E S]]]. exists fresh, kept.
  pose proof (Forall2_length S) as Hl.
  split; [exact E |]. split; [exact S |]. split; [now symmetry |].
  rewrite E, length_app. lia.
Qed.

Lemma empty_refused : refused Draft.empty = true.
Proof. reflexivity. Qed.

(** X13. A second submission right after a first changes nothing: either
    the first was refused and the second meets the same draft, or the
    first reset the draft, whose empty title is refused. A double click on
    "Submit" adds one incident, not two. *)
Theorem second_submit_is_noop (now1 today1 now2 today2 : Z) (st : State) :
  handleAddIncident now2 today2 (handleAddIncident now1 today1 st)
  = handleAddIncident now1 today1 st.
Proof.
  unfold handleAddIncident.
  destruct (refused (newIncident st)) eqn:Hr.
  - now rewrite Hr.
  - cbn [newIncident setNewIncident]. now rewrite empty_refused.
Qed.

Lemma refused_iff_blank (d : Draft.t) :
  refused d = true
  <-> allWhiteSpace (Draft.title d) = true
      \/ allWhiteSpace (Draft.description d) = true.
Proof.
  unfold refused. rewrite orb_true_iff, !negb_true_iff, !JSFacts.trim_blank.
  tauto.
Qed.

(** X14. A submission leaves the state as it is exactly when the draft's
    title or its description consists of white space only (the empty text
    included); otherwise the store has one incident more. *)
Theorem submit_refused_iff_blank (now today : Z) (st : State) :
  (handleAddIncident now today st = st
   <-> allWhiteSpace (Draft.title (newIncident st)) = true
       \/ allWhiteSpace (Draft.description (newIncident st)) = true)
  /\ (handleAddIncident now today st = st
      \/ length (incidents (handleAddIncident now today st))
         = S (length (incidents st))).
Proof.
  rewrite <- refused_iff_blank. unfold handleAddIncident.
  destruct (refused (newIncident st)) eqn:Hr.
  - split; [tauto | now left].
  - split; [| now right]. split; [| discriminate].
    intros H. apply (f_equal (fun s => length (incidents s))) in H.
    cbn in H. lia.
Qed.

(** X11. The incident an accepted submission adds shows tag chips in its
    detail panel exactly when the raw tag text holds something besides
    commas and white space. *)
Theorem new_incident_shows_tags (now today : Z) (st : State) (e : Incident) :
  refused (newIncident st) = false ->
  nth_error (incidents (handleAddIncident now today st)) 0 = Some e ->
  Render.showsTags e = negb (onlySeparators (Draft.tags (newIncident st))).
Proof.
  intros Hr. unfold handleAddIncident. rewrite Hr.
  cbn [incidents setNewIncident setIncidents nth_error].
  intros [= <-]. unfold Render.showsTags. cbn [tags].
  destruct (parseTags (Draft.tags (newIncident st))) as [|t ts] eqn:Hp.
  - apply TagFacts.parseTags_nil in Hp. now rewrite Hp.
  - destruct (onlySeparators (Draft.tags (newIncident st))) eqn:Ho;
      [| reflexivity].
    apply TagFacts.parseTags_nil in Ho. congruence.
Qed.

Lemma new_incident_shows_tags_witness :
  exists e,
    nth_error (incidents (handleAddIncident 1746093600000 1746093600000
                            filledForm)) 0 = Some e
    /\ Render.showsTags e = true.
Proof.
  eexists. split; [reflexivity |].
  rewrite (new_incident_shows_tags 1746093600000 1746093600000 filledForm _
             eq_refl eq_refl).
  reflexivity.
Defined.

End RunFacts.

(** ** How the view follows the state *)

Module PipelineFacts.
Import App Spec Props Samples.

Lemma filter_filter {A : Type} (f g : A -> bool) (l : list A) :
  List.filter f (List.filter g l) = List.filter (fun x => g x && f x) l.
Proof.
  induction l as [|x l IH]; simpl; [reflexivity |].
  destruct (g x); simpl; [| exact IH].
  destruct (f x); now rewrite IH.
Qed.

Lemma filtered_keeps (st : State) :
  filtered st = List.filter (keeps st) (incidents st).
Proof. unfold filtered, searchFilter, severityFilter. apply filter_filter. Qed.

(** X5. The two filters of the view can run in either order, or as one
    pass with both tests: the result is the same list. *)
Theorem filters_commute (flt srch : string) (l : list Incident) :
  searchFilter srch (severityFilter flt l)
  = severityFilter flt (searchFilter srch l)
  /\ searchFilter srch (severityFilter flt l)
     = List.filter (fun i => severityKeep flt i && searchKeep srch i) l.
Proof.
  unfold searchFilter, severityFilter. rewrite !filter_filter. split.
  - apply filter_ext. intros i. apply andb_comm.
  - reflexivity.
Qed.

(** X6. Whatever the host's date parser and the sort order, the rendered
    list holds exactly the stored incidents that pass both filters, each as
    often as it is stored: it is a rearrangement of them. In particular it
    is never longer than the store. *)
Theorem view_shows_exactly_the_kept (Date_parse : string -> JS.number)
    (st : State) :
  Permutation (sorted Date_parse st) (List.filter (keeps st) (incidents st))
  /\ (forall i, In i (sorted Date_parse st)
        <-> In i (incidents st)
            /\ severityKeep (filter st) i = true
            /\ searchKeep (search st) i = true)
  /\ (length (sorted Date_parse st) <= length (incidents st))%nat.
Proof.
  assert (Hp : Permutation (sorted Date_parse st)
                 (List.filter (keeps st) (incidents st))).
  { unfold sorted. rewrite <- filtered_keeps. apply SortFacts.sort_perm. }
  split; [exact Hp |]. split.
  - intros i. split.
    + intros Hi. apply (Permutation_in _ Hp) in Hi.
      apply filter_In in Hi as [Hin Hk]. unfold keeps in Hk.
      apply andb_true_iff in Hk. tauto.
    + intros [Hin [H1 H2]]. apply (Permutation_in _ (Permutation_sym Hp)).
      apply filter_In. unfold keeps. now rewrite H1, H2.
  - rewrite (Permutation_length Hp). apply filter_length_le.
Qed.

Lemma filter_all {A : Type} (p : A -> bool) (l : list A) :
  (forall x, p x = true) -> List.filter p l = l.
Proof.
  intros H. induction l as [|x l IH]; simpl; [reflexivity |].
  now rewrite H, IH.
Qed.

Lemma searchKeep_empty (i : Incident) : searchKeep EmptyString i = true.
Proof.
  unfold searchKeep. cbn [JS.toLowerCase].
  now rewrite JSFacts.includes_empty.
Qed.

(** X7. With the severity filter on "All" and an empty search box, the
    rendered list is a rearrangement of the whole store: nothing is
    hidden. *)
Theorem no_filter_shows_all (Date_parse : string -> JS.number) (st : State) :
  filter st = "All" -> search st = EmptyString ->
  Permutation (sorted Date_parse st) (incidents st)
  /\ length (sorted Date_parse st) = length (incidents st).
Proof.
  intros Hf Hs.
  assert (Hp : Permutation (sorted Date_parse st) (incidents st)).
  { unfold sorted. rewrite SortFacts.sort_perm.
    unfold filtered, searchFilter, severityFilter. rewrite Hf, Hs.
    rewrite (filter_all (severityKeep "All")) by reflexivity.
    now rewrite (filter_all (searchKeep EmptyString)) by apply searchKeep_empty. }
  split; [exact Hp | apply Permutation_length, Hp].
Qed.

Lemma no_filter_shows_all_witness :
  length (sorted Date.iso_parse initialState) = 3%nat.
Proof.
  apply (no_filter_shows_all Date.iso_parse initialState); reflexivity.
Defined.

Lemma filter_map_same {A : Type} (p : A -> bool) (f : A -> A) (l : list A) :
  (forall x, p (f x) = p x) ->
  List.filter p (map f l) = map f (List.filter p l).
Proof.
  intros H. induction l as [|x l IH]; simpl; [reflexivity |].
  rewrite H. destruct (p x); simpl; now rewrite IH.
Qed.

Section SortMap.
Context {A : Type}.
Variable comparefn : A -> A -> JS.number.
Variable f : A -> A.
Hypothesis compare_f : forall x y, comparefn (f x) (f y) = comparefn x y.

Lemma insert_map (x : A) (l : list A) :
  JSArray.insert comparefn (f x) (map f l)
  = map f (JSArray.insert comparefn x l).
Proof.
  induction l as [|y l IH]; simpl; [reflexivity |].
  unfold JSArray.sortCompare. rewrite compare_f.
  destruct (match comparefn x y with Some v => v | None => 0 end >? 0);
    simpl; [now rewrite IH | reflexivity].
Qed.

Lemma sort_map (l : list A) :
  JSArray.sort comparefn (map f l) = map f (JSArray.sort comparefn l).
Proof.
  induction l as [|x l IH]; simpl; [reflexivity |].
  now rewrite IH, insert_map.
Qed.
End SortMap.

Lemma flip_severityKeep (t : Z) (flt : string) (i : Incident) :
  severityKeep flt (flipIfMatches t i) = severityKeep flt i.
Proof. unfold severityKeep, flipIfMatches. now destruct (id i =? t). Qed.

Lemma flip_searchKeep (t : Z) (srch : string) (i : Incident) :
  searchKeep srch (flipIfMatches t i) = searchKeep srch i.
Proof. unfold searchKeep, flipIfMatches. now destruct (id i =? t). Qed.

Lemma flip_compare (Date_parse : string -> JS.number) (order : string)
    (t : Z) (a b : Incident) :
  compareReported Date_parse order (flipIfMatches t a) (flipIfMatches t b)
  = compareReported Date_parse order a b.
Proof.
  unfold compareReported, getTime, flipIfMatches.
  now destruct (id a =? t), (id b =? t).
Qed.

(** X8. Acknowledging neither hides nor moves anything: the rendered list
    after [toggleAcknowledge] is the rendered list before, with the flag of
    the incidents of that id flipped where they stand; so the ids are shown
    in the same order, and only the buttons of that id change their
    text. *)
Theorem acknowledge_keeps_the_view (Date_parse : string -> JS.number)
    (t : Z) (st : State) :
  sorted Date_parse (toggleAcknowledge t st)
  = map (flipIfMatches t) (sorted Date_parse st)
  /\ map id (sorted Date_parse (toggleAcknowledge t st))
     = map id (sorted Date_parse st)
  /\ (forall k a b,
        nth_error (sorted Date_parse st) k = Some a ->
        nth_error (sorted Date_parse (toggleAcknowledge t st)) k = Some b ->
        id a <> t ->
        Render.acknowledgeLabel b = Render.acknowledgeLabel a).
Proof.
  assert (E : sorted Date_parse (toggleAcknowledge t st)
              = map (flipIfMatches t) (sorted Date_parse st)).
  { unfold sorted, filtered, searchFilter, severityFilter.
    cbn [incidents filter search sortOrder toggleAcknowledge setIncidents].
    rewrite (filter_map_same _ _ _ (flip_severityKeep t (filter st))).
    rewrite (filter_map_same _ _ _ (flip_searchKeep t (search st))).
    apply sort_map. intros x y. apply flip_compare. }
  split; [exact E |]. split.
  - rewrite E, map_map. apply map_ext. intros i. apply ToggleFacts.flip_id.
  - intros k a b Ha Hb Hne. rewrite E, nth_error_map, Ha in Hb.
    injection Hb as <-. now rewrite ToggleFacts.flip_other.
Qed.

Lemma acknowledge_keeps_the_view_witness :
  map id (sorted Date.iso_parse (toggleAcknowledge 2 initialState)) = [2; 3; 1]
  /\ map Render.acknowledgeLabel
       (sorted Date.iso_parse (toggleAcknowledge 2 initialState))
     = ["Acknowledged"; "Acknowledge"; "Acknowledge"].
Proof.
  split.
  - now rewrite (proj1 (proj2 (acknowledge_keeps_the_view Date.iso_parse 2
                                 initialState))).
  - now rewrite (proj1 (acknowledge_keeps_the_view Date.iso_parse 2
                          initialState)).
Defined.

Lemma flip_flip_comm (a b : Z) (i : Incident) :
  flipIfMatches a (flipIfMatches b i) = flipIfMatches b (flipIfMatches a i).
Proof.
  unfold flipIfMatches.
  destruct (id i =? b) eqn:Hb, (id i =? a) eqn:Ha; cbn;
    rewrite ?Ha, ?Hb; reflexivity.
Qed.

(** X10. Acknowledgements do not interfere: toggling for one id and then
    for another gives the state that the other order gives. *)
Theorem toggles_commute (a b : Z) (st : State) :
  toggleAcknowledge a (toggleAcknowledge b st)
  = toggleAcknowledge b (toggleAcknowledge a st).
Proof.
  unfold toggleAcknowledge, setIncidents. cbn. f_equal.
  rewrite !map_map. apply map_ext. intros i. apply flip_flip_comm.
Qed.

Lemma toLowerCase_app (a b : string) :
  JS.toLowerCase (a ++ b) = (JS.toLowerCase a ++ JS.toLowerCase b)%string.
Proof.
  induction a as [|c a IH]; simpl; [reflexivity |]. now rewrite IH.
Qed.

Lemma string_app_assoc (a b c : string) :
  ((a ++ b) ++ c)%string = (a ++ b ++ c)%string.
Proof. induction a as [|x a IH]; simpl; [reflexivity |]. now rewrite IH. Qed.

Lemma containsCI_part (a srch b text : string) :
  containsCI (a ++ srch ++ b) text -> containsCI srch text.
Proof.
  intros [pre [post H]]. rewrite !toLowerCase_app in H.
  exists (pre ++ JS.toLowerCase a)%string, (JS.toLowerCase b ++ post)%string.
  rewrite H. now rewrite !string_app_assoc.
Qed.

Lemma searchKeep_part (a srch b : string) (i : Incident) :
  searchKeep (a ++ srch ++ b) i = true -> searchKeep srch i = true.
Proof.
  rewrite !ViewFacts.searchKeep_iff.
  intros [H|[H|[ts [tag [Hts [Hin H]]]]]].
  - left. now apply (containsCI_part a srch b).
  - right; left. now apply (containsCI_part a srch b).
  - right; right. exists ts, tag. repeat split; try assumption.
    now apply (containsCI_part a srch b).
Qed.

(** X12. Typing more into the search box only narrows the list: an
    incident kept for a search text is kept for every part of that text, so
    what a longer text finds is found among what the shorter one found. *)
Theorem longer_search_narrows (a srch b : string) (l : list Incident) :
  (forall i, searchKeep (a ++ srch ++ b) i = true -> searchKeep srch i = true)
  /\ searchFilter (a ++ srch ++ b) (searchFilter srch l)
     = searchFilter (a ++ srch ++ b) l
  /\ Subseq (searchFilter (a ++ srch ++ b) l) (searchFilter srch l).
Proof.
  split; [intros i; apply searchKeep_part |].
  assert (E : searchFilter (a ++ srch ++ b) (searchFilter srch l)
              = searchFilter (a ++ srch ++ b) l).
  { unfold searchFilter. rewrite filter_filter. apply filter_ext.
    intros i. destruct (searchKeep (a ++ srch ++ b) i) eqn:H.
    - now rewrite (searchKeep_part a srch b i H).
    - apply andb_false_r. }
  split; [exact E |]. rewrite <- E. apply ViewFacts.filter_Subseq.
Qed.

(** X16. After a click on the details button of the incident with id
    [x], the button of an incident with that id reads "Hide Details" if
    its panel was closed and "View Details" if it was open, and the button
    of every incident with another id reads "View Details". *)
Theorem details_label_after_click (st : State) (x : Z) (i : Incident) :
  Render.detailsLabel (onViewDetails x st) i
  = if id i =? x
    then (if isExpanded st x then "View Details" else "Hide Details")
    else "View Details".
Proof.
  unfold Render.detailsLabel, isExpanded, onViewDetails. cbn [expanded setExpanded].
  destruct (expanded st) as [e|].
  - destruct (e =? x) eqn:Hex.
    + now destruct (id i =? x).
    + rewrite (Z.eqb_sym x (id i)). now destruct (id i =? x).
  - rewrite (Z.eqb_sym x (id i)). now destruct (id i =? x).
Qed.

End PipelineFacts.

(** ** The order of the view *)

Module OrderFacts.
Import App Spec Props Samples.

Section Host.
Variable Date_parse : string -> JS.number.

Local Abbreviation getTime := (getTime Date_parse).
Local Abbreviation timed := (Spec.timed Date_parse).
Local Abbreviation instant := (Spec.instant Date_parse).
Local Abbreviation sortKey := (Spec.sortKey Date_parse).

Lemma insert_first {A : Type} (comparefn : A -> A -> JS.number) (x : A)
    (l : list A) :
  (forall y, In y l -> JSArray.sortCompare comparefn x y <= 0) ->
  JSArray.insert comparefn x l = x :: l.
Proof.
  destruct l as [|y l]; [reflexivity |]. intros H. simpl.
  specialize (H y (or_introl eq_refl)).
  destruct (Z.gtb_spec (JSArray.sortCompare comparefn x y) 0); [lia | reflexivity].
Qed.

Lemma newest_first_on_top (e : Incident) (l : list Incident) (t0 : Z) :
  getTime e = Some t0 ->
  (forall i, In i l -> exists t, getTime i = Some t /\ t <= t0) ->
  JSArray.sort (compareReported Date_parse "newest") (e :: l)
  = e :: JSArray.sort (compareReported Date_parse "newest") l.
Proof.
  intros He Hl. cbn [JSArray.sort]. apply insert_first.
  intros y Hy. apply SortFacts.sort_In in Hy.
  destruct (Hl y Hy) as [t [Ht Hle]].
  unfold JSArray.sortCompare, compareReported. cbn [String.eqb Ascii.eqb Bool.eqb].
  rewrite He, Ht. cbn. lia.
Qed.

(** X9. With the list on "newest first", an accepted submission whose
    report time is an instant not before any stored one puts its incident
    at the top of the rendered list, above the list as it was, when the
    incident passes both filters; when it does not, the rendered list is
    unchanged. *)
Theorem new_report_on_top (now today t0 : Z) (st : State) (e : Incident) :
  refused (newIncident st) = false ->
  sortOrder st = "newest" ->
  Date_parse (Date.toISOString today) = Some t0 ->
  (forall i, In i (incidents st) -> exists t, getTime i = Some t /\ t <= t0) ->
  nth_error (incidents (handleAddIncident now today st)) 0 = Some e ->
  sorted Date_parse (handleAddIncident now today st)
  = if keeps st e then e :: sorted Date_parse st else sorted Date_parse st.
Proof.
  intros Hr Ho Ht Hl. unfold handleAddIncident. rewrite Hr.
  cbn [incidents setNewIncident setIncidents nth_error]. intros [= <-].
  unfold sorted. rewrite !PipelineFacts.filtered_keeps.
  cbn [incidents sortOrder setNewIncident setIncidents]. rewrite Ho.
  set (e := mkIncident _ _ _ _ _ _ _).
  change (keeps (setNewIncident Draft.empty
                   (setIncidents (e :: incidents st) st)))
    with (keeps st).
  cbn [List.filter]. destruct (keeps st e); [| reflexivity].
  apply newest_first_on_top with (t0 := t0); [exact Ht |].
  intros i Hi. apply filter_In in Hi as [Hi _]. now apply Hl.
Qed.

Lemma StronglySorted_snoc {A : Type} (R : A -> A -> Prop) (l : list A) (x : A) :
  StronglySorted R l -> Forall (fun y => R y x) l ->
  StronglySorted R (l ++ [x]).
Proof.
  induction 1 as [|a l Hs IH Ha]; intros Hx; simpl.
  - repeat constructor.
  - inversion Hx; subst. constructor; [now apply IH |].
    apply Forall_app. split; [assumption | now constructor].
Qed.

Lemma StronglySorted_rev {A : Type} (R : A -> A -> Prop) (l : list A) :
  StronglySorted R l -> StronglySorted (fun a b => R b a) (rev l).
Proof.
  induction 1 as [|a l Hs IH Ha]; simpl; [constructor |].
  apply StronglySorted_snoc; [exact IH |].
  apply Forall_rev. exact Ha.
Qed.

Lemma rev_short {A : Type} (l : list A) : (length l <= 1)%nat -> rev l = l.
Proof.
  destruct l as [|a [|b l]]; simpl; intros H; try reflexivity. lia.
Qed.

Lemma one_per_instant (k : Z) (l : list Incident) :
  Forall timed l -> NoDup (map getTime l) ->
  (length (List.filter (hasKey instant k) l) <= 1)%nat.
Proof.
  induction l as [|x l IH]; intros Ht Hn; simpl; [lia |].
  inversion Ht as [|? ? Hx Hl]; subst.
  inversion Hn as [|? ? Hnotin Hn']; subst.
  destruct (hasKey instant k x) eqn:Hk; [| now apply IH].
  assert (E : List.filter (hasKey instant k) l = []).
  { destruct (List.filter (hasKey instant k) l) as [|y r] eqn:Hf;
      [reflexivity |].
    assert (Hy : In y (List.filter (hasKey instant k) l))
      by (rewrite Hf; now left).
    apply filter_In in Hy as [Hin Hyk].
    exfalso. apply Hnotin.
    rewrite Forall_forall in Hl. specialize (Hl y Hin).
    unfold hasKey in Hk, Hyk. apply Z.eqb_eq in Hk, Hyk.
    rewrite (SortedFacts.timed_instant Date_parse x Hx).
    rewrite Hk, <- Hyk, <- (SortedFacts.timed_instant Date_parse y Hl).
    now apply in_map. }
  rewrite E. simpl. lia.
Qed.

Lemma NoDup_map_filter {A B : Type} (g : A -> B) (p : A -> bool) (l : list A) :
  NoDup (map g l) -> NoDup (map g (List.filter p l)).
Proof.
  induction l as [|x l IH]; simpl; intros H; [constructor |].
  inversion H as [|? ? Hx Hl]; subst.
  destruct (p x); simpl; [| now apply IH].
  constructor; [| now apply IH].
  intros Hin. apply Hx. apply in_map_iff in Hin as [y [Hy Hin]].
  apply filter_In in Hin as [Hin _]. rewrite <- Hy. now apply in_map.
Qed.

(** X15. When the report times of the store are instants and no two of
    them are the same, "oldest first" shows the list of "newest first"
    backwards. *)
Theorem oldest_is_newest_reversed (st : State) :
  Forall timed (incidents st) ->
  NoDup (map getTime (incidents st)) ->
  sorted Date_parse (setSortOrder "oldest" st)
  = rev (sorted Date_parse (setSortOrder "newest" st)).
Proof.
  intros Ht Hn. unfold sorted.
  change (filtered (setSortOrder "oldest" st)) with (filtered st).
  change (filtered (setSortOrder "newest" st)) with (filtered st).
  cbn [sortOrder setSortOrder].
  pose proof (SortedFacts.filtered_timed Date_parse st Ht) as Hl.
  assert (Hnl : NoDup (map getTime (filtered st))).
  { unfold filtered, searchFilter, severityFilter.
    now do 2 apply NoDup_map_filter. }
  rewrite !(SortedFacts.sort_byKey Date_parse) by exact Hl.
  symmetry. apply SortFacts.sort_unique.
  - apply (SortFacts.StronglySorted_impl_in
             (fun a b => keyLe (sortKey "newest") b a)).
    + intros x y _ _. unfold keyLe, Spec.sortKey.
      cbn [String.eqb Ascii.eqb Bool.eqb]. lia.
    + apply StronglySorted_rev, SortFacts.sort_sorted.
  - intros k. rewrite filter_rev.
    rewrite (filter_ext (hasKey (sortKey "oldest") k)
               (hasKey (sortKey "newest") (- k))).
    + rewrite SortFacts.sort_stable.
      rewrite (filter_ext (hasKey (sortKey "newest") (- k))
                 (hasKey instant k)).
      * rewrite rev_short by now apply one_per_instant.
        apply filter_ext. intros x. reflexivity.
      * intros x. unfold hasKey, Spec.sortKey.
        cbn [String.eqb Ascii.eqb Bool.eqb].
        destruct (Z.eqb_spec (- instant x) (- k)), (Z.eqb_spec (instant x) k);
          try reflexivity; lia.
    + intros x. unfold hasKey, Spec.sortKey.
      cbn [String.eqb Ascii.eqb Bool.eqb].
      destruct (Z.eqb_spec (- instant x) (- k)), (Z.eqb_spec (instant x) k);
        try reflexivity; lia.
Qed.

End Host.

Lemma new_report_on_top_witness :
  map id (sorted Date.iso_parse
            (handleAddIncident 1746093600000 1746093600001 filledForm))
  = [1746093600000; 2; 3; 1].
Proof.
  assert (H := fun Hl =>
                 new_report_on_top Date.iso_parse 1746093600000 1746093600001
                   1746093600001 filledForm _ eq_refl eq_refl eq_refl Hl
                   eq_refl).
  rewrite H; [reflexivity |].
  intros i [<-|[<-|[<-|[]]]]; eexists; (split; [reflexivity |]);
    vm_compute; discriminate.
Defined.

Lemma oldest_is_newest_reversed_witness :
  map id (sorted Date.iso_parse (setSortOrder "oldest" initialState))
  = [1; 3; 2].
Proof.
  rewrite (oldest_is_newest_reversed Date.iso_parse initialState).
  - reflexivity.
  - exact SortedFacts.initial_timed.
  - vm_compute. repeat constructor; simpl; intuition discriminate.
Defined.

End OrderFacts.
